(** * The cached-session gate of the Playwright starter

    A shallow embedding of [isAuthStateValid] and of the
    [setup('authenticate')] step (the auth setup file that follows
    tests/api/health.spec.ts in the sources), together with the part of
    the ECMAScript semantics these two functions exercise on the values
    that [JSON.parse] can return.

    JavaScript numbers are IEEE 754 binary64 values; they are modelled by
    Rocq's primitive [float], whose comparisons are the ones the engine
    performs. *)

From Stdlib Require Import Bool List String Ascii NArith ZArith Lia.
From Stdlib Require Import DecimalString.
From Stdlib Require Import Permutation.
From Stdlib Require Import Floats.
Import ListNotations.

Set Warnings "-register-all".
Local Open Scope string_scope.

(** * Numbers *)

Module Number.

(** [x < y] of ECMAScript on two numbers: [false] as soon as one side is
    NaN (the comparison is then undefined, which [<] and [>] turn into
    [false]). *)
Definition lt (x y : float) : bool := PrimFloat.ltb x y.

(** Not part of the program: [x <= y], used to state properties. *)
Definition le (x y : float) : bool := PrimFloat.leb x y.

Definition is_nan (x : float) : bool := PrimFloat.is_nan x.

(** [+0], the literal [0] of the source. *)
Definition zero : float := 0%float.

End Number.

(** * Values

    What [JSON.parse] can return: [null], booleans, numbers, strings,
    arrays without holes and plain objects whose own properties are data
    properties holding such values again.  An object keeps its own
    properties as an association list in which [own] reads the first
    binding of a key ([JSON.parse] leaves one binding per key). *)

Inductive json : Type :=
| JNull
| JBool (b : bool)
| JNum (n : float)
| JStr (s : string)
| JArr (items : list json)
| JObj (props : list (string * json)).

(** The result of an expression: [undefined], which no JSON text denotes
    but which a missing property reads as, or a parsed value. *)
Inductive value : Type :=
| Undefined
| Val (j : json).

(** What a [throw] carries, as far as the program can raise it. *)
Inductive exn : Type :=
| TypeError
| SyntaxError
| SystemError (code : string)      (* node:fs failures: EISDIR, EACCES, ENOSPC ... *)
| BrowserError (message : string). (* rejections of the Playwright API *)

(** Completion of an evaluation: a value, or an abrupt completion by
    [throw]. *)
Inductive completion (A : Type) : Type :=
| Normal (a : A)
| Throw (e : exn).

Arguments Normal {A} a.
Arguments Throw {A} e.

Definition cbind {A B : Type} (c : completion A) (k : A -> completion B)
  : completion B :=
  match c with
  | Normal a => k a
  | Throw e => Throw e
  end.

Declare Scope completion_scope.
Delimit Scope completion_scope with completion.

Notation "x <- c ;; k" := (cbind c (fun x => k))
  (at level 61, c at next level, right associativity) : completion_scope.

(** [try { body } catch { handler }]. *)
Definition try_catch {A : Type} (body : completion A)
  (handler : exn -> completion A) : completion A :=
  match body with
  | Normal a => Normal a
  | Throw e => handler e
  end.

(** * Built-ins of the engine

    The program calls into the JavaScript engine and into Node; none of
    that is code of the repository.  These entry points are kept abstract:
    every theorem below holds for every engine. *)

Class Engine : Type := {
  (** [JSON.parse(text)]: [None] when it throws a [SyntaxError]. *)
  JSON_parse : string -> option json;
  (** [JSON.stringify(value, undefined, 2)], as Playwright serialises the
      storage state. *)
  JSON_stringify : json -> string;
  (** [StringToNumber] of ECMAScript, the [ToNumber] of a string. *)
  StringToNumber : string -> float;
  (** [Number::toString] of ECMAScript, radix 10. *)
  NumberToString : float -> string;
  (** [path.resolve(p)] against the working directory of the process,
      which is taken to exist. *)
  path_resolve : string -> string
}.

Local Open Scope completion_scope.

Fixpoint own (props : list (string * json)) (key : string) : option json :=
  match props with
  | [] => None
  | (k, v) :: rest => if String.eqb k key then Some v else own rest key
  end.

(** [v.key] for a key that no built-in prototype defines (the program
    reads [cookies] and [expires] this way): a [TypeError] on [undefined]
    and [null], the own property of a plain object, and [undefined] on
    everything else, primitives and arrays included. *)
Definition Get (v : value) (key : string) : completion value :=
  match v with
  | Undefined | Val JNull => Throw TypeError
  | Val (JObj props) =>
      Normal (match own props key with
              | Some x => Val x
              | None => Undefined
              end)
  | Val _ => Normal Undefined
  end.

(** [ToBoolean]: the falsy values are [undefined], [null], [false], [+0],
    [-0], NaN and the empty string. *)
Definition ToBoolean (v : value) : bool :=
  match v with
  | Undefined | Val JNull => false
  | Val (JBool b) => b
  | Val (JNum n) => negb (PrimFloat.eqb n Number.zero || Number.is_nan n)
  | Val (JStr s) => negb (String.eqb s EmptyString)
  | Val (JArr _) | Val (JObj _) => true
  end.

(** What [v.length] reads as: the element count of an array, the length of
    a string, the own property of a plain object, [undefined] otherwise.
    (A string is kept as its bytes; the program only asks whether the
    length is zero, which does not depend on the unit of length.) *)
Inductive length_result : Type :=
| LenUndefined
| LenCount (n : nat)
| LenValue (j : json).

Definition GetLength (v : value) : completion length_result :=
  match v with
  | Undefined | Val JNull => Throw TypeError
  | Val (JArr items) => Normal (LenCount (List.length items))
  | Val (JStr s) => Normal (LenCount (String.length s))
  | Val (JObj props) =>
      Normal (match own props "length" with
              | Some x => LenValue x
              | None => LenUndefined
              end)
  | Val _ => Normal LenUndefined
  end.

(** [r === 0]: strict equality with the number zero; no coercion. *)
Definition strict_eq_zero (r : length_result) : bool :=
  match r with
  | LenCount n => Nat.eqb n 0
  | LenValue (JNum x) => PrimFloat.eqb x Number.zero
  | LenValue _ | LenUndefined => false
  end.

(** ** Coercion to a number

    [ToPrimitive] followed by [ToNumber], on parsed values.  No property of
    a parsed object is callable, so a plain object with an own [toString]
    has no usable conversion method left ([Object.prototype.valueOf]
    returns the object itself) and the conversion throws; without one it
    converts through [Object.prototype.toString].  An array converts
    through [Array.prototype.join], which prints [null] as the empty
    string. *)

Definition object_string : string := "[object Object]".

Fixpoint ToStringJ `{Engine} (v : json) : completion string :=
  match v with
  | JNull => Normal "null"
  | JBool true => Normal "true"
  | JBool false => Normal "false"
  | JNum n => Normal (NumberToString n)
  | JStr s => Normal s
  | JArr items =>
      (fix join (l : list json) : completion string :=
         match l with
         | [] => Normal EmptyString
         | x :: rest =>
             sx <- match x with
                   | JNull => Normal EmptyString
                   | _ => ToStringJ x
                   end ;;
             match rest with
             | [] => Normal sx
             | _ :: _ => sr <- join rest ;; Normal (sx ++ "," ++ sr)
             end
         end) items
  | JObj props =>
      match own props "toString" with
      | Some _ => Throw TypeError
      | None => Normal object_string
      end
  end.

Definition ToNumber `{Engine} (v : value) : completion float :=
  match v with
  | Undefined => Normal PrimFloat.nan
  | Val JNull => Normal Number.zero
  | Val (JBool true) => Normal 1%float
  | Val (JBool false) => Normal Number.zero
  | Val (JNum n) => Normal n
  | Val (JStr s) => Normal (StringToNumber s)
  | Val (JArr items) => s <- ToStringJ (JArr items) ;; Normal (StringToNumber s)
  | Val (JObj props) => s <- ToStringJ (JObj props) ;; Normal (StringToNumber s)
  end.

(** [a > b] and [a < b] where the other operand is a number: both sides
    are compared as numbers. *)
Definition greater_than_number `{Engine} (a : value) (b : float)
  : completion bool :=
  n <- ToNumber a ;; Normal (Number.lt b n).

Definition less_than_number `{Engine} (a : value) (b : float)
  : completion bool :=
  n <- ToNumber a ;; Normal (Number.lt n b).

(** ** [Array.prototype.some] *)

Fixpoint array_some (callback : json -> completion bool) (items : list json)
  : completion bool :=
  match items with
  | [] => Normal false
  | x :: rest =>
      b <- callback x ;;
      if b then Normal true else array_some callback rest
  end.

(** [v.some(callback)]: only an array has a callable [some]; on any other
    parsed value the property is [undefined] or a parsed value, and the
    call throws. *)
Definition CallSome (v : value) (callback : json -> completion bool)
  : completion bool :=
  match v with
  | Val (JArr items) => array_some callback items
  | _ => Throw TypeError
  end.

(** * The file system and the clock *)

Inductive fs_entry : Type :=
| Missing                      (* nothing at the path *)
| Unreadable (code : string)   (* something [readFileSync] fails on *)
| Regular (content : string).  (* a file, with its text *)

(** One step of the outside world that the setup step causes. *)
Inductive event : Type :=
| Log (message : string)
| Goto (url : string)
| StorageState (path : string).

Record World : Type := {
  files : string -> fs_entry;   (* by resolved path *)
  Date_now : float;             (* milliseconds, as [Date.now()] returns *)
  storage : json;               (* what the browser context holds *)
  trace : list event            (* what the run did so far, oldest first *)
}.

Definition fs_existsSync (w : World) (p : string) : bool :=
  match files w p with
  | Missing => false
  | _ => true
  end.

Definition fs_readFileSync (w : World) (p : string) : completion string :=
  match files w p with
  | Missing => Throw (SystemError "ENOENT")
  | Unreadable code => Throw (SystemError code)
  | Regular content => Normal content
  end.

Definition parse `{Engine} (raw : string) : completion json :=
  match JSON_parse raw with
  | Some j => Normal j
  | None => Throw SyntaxError
  end.

(** * The gate: [isAuthStateValid] *)

Definition AUTH_STATE_PATH : string := ".auth/state.json".

(** The arrow function handed to [some]:
    [cookie => cookie.expires > 0 && cookie.expires < now].
    [&&] evaluates its right operand only when the left one is true. *)
Definition cookie_expired `{Engine} (now : float) (cookie : json)
  : completion bool :=
  e1 <- Get (Val cookie) "expires" ;;
  positive <- greater_than_number e1 Number.zero ;;
  if positive then
    e2 <- Get (Val cookie) "expires" ;;
    less_than_number e2 now
  else Normal false.

(** [Date.now() / 1000]: the check instant, in Unix seconds. *)
Definition check_instant (w : World) : float :=
  PrimFloat.div (Date_now w) 1000%float.

(** The statements of the [try] block that follow [JSON.parse].  The
    source reads [state.cookies] three times; reading a data property of
    a parsed object has no effect and gives the same value each time, so
    it is read once here. *)
Definition check_state `{Engine} (w : World) (state : json) : completion bool :=
  cookies <- Get (Val state) "cookies" ;;
  no_cookies <- (if negb (ToBoolean cookies) then Normal true
                 else len <- GetLength cookies ;; Normal (strict_eq_zero len)) ;;
  if no_cookies then Normal false
  else
    let now := check_instant w in
    hasExpired <- CallSome cookies (cookie_expired now) ;;
    Normal (negb hasExpired).

Definition isAuthStateValid `{Engine} (w : World) : completion bool :=
  let fullPath := path_resolve AUTH_STATE_PATH in
  if negb (fs_existsSync w fullPath) then Normal false
  else
    try_catch
      (raw <- fs_readFileSync w fullPath ;;
       state <- parse raw ;;
       check_state w state)
      (fun _ => Normal false).

(** * The setup step

    An [async] function: a computation that may change the world and that
    completes normally or rejects.  [await] of a rejected promise throws in
    the awaiting function; with no [try] around it the function rejects in
    turn. *)

Definition M (A : Type) : Type := World -> completion A * World.

Definition ret {A : Type} (a : A) : M A := fun w => (Normal a, w).

Definition bind {A B : Type} (m : M A) (k : A -> M B) : M B :=
  fun w =>
    match m w with
    | (Normal a, w') => k a w'
    | (Throw e, w') => (Throw e, w')
    end.

Declare Scope async_scope.
Delimit Scope async_scope with async.

Notation "x <- c ;; k" := (bind c (fun x => k))
  (at level 61, c at next level, right associativity) : async_scope.
Notation "c ;;; k" := (bind c (fun _ => k))
  (at level 61, right associativity) : async_scope.

(** A synchronous call that only reads the world. *)
Definition call {A : Type} (f : World -> completion A) : M A :=
  fun w => (f w, w).

Definition emit (e : event) (w : World) : World :=
  {| files := files w; Date_now := Date_now w; storage := storage w;
     trace := trace w ++ [e] |}.

Definition console_log (message : string) : M unit :=
  fun w => (Normal tt, emit (Log message) w).

(** ** The browser, as Playwright exposes it

    How the collaborators outside the program answer during one run of the
    setup step.  Nothing here is code of the repository: the run is
    parametrised by these answers and the theorems quantify over them. *)

Record Outside : Type := {
  (** [page.goto(url)]: the navigation succeeds and leaves the browser
      context holding this state, or it rejects. *)
  goto_outcome : completion json;
  (** The write of [storageState({ path })]: [None] when it succeeds,
      otherwise the error it rejects with and what is then found at the
      path. *)
  write_outcome : option (exn * fs_entry)
}.

Definition set_storage (s : json) (w : World) : World :=
  {| files := files w; Date_now := Date_now w; storage := s;
     trace := trace w |}.

Definition set_file (p : string) (entry : fs_entry) (w : World) : World :=
  {| files := fun q => if String.eqb q p then entry else files w q;
     Date_now := Date_now w; storage := storage w; trace := trace w |}.

Definition page_goto (o : Outside) (url : string) : M unit :=
  fun w =>
    let w1 := emit (Goto url) w in
    match goto_outcome o with
    | Normal s => (Normal tt, set_storage s w1)
    | Throw e => (Throw e, w1)
    end.

(** [page.context().storageState({ path })]: serialises the cookies and
    the storage of the context and writes the text at [path]. *)
Definition context_storageState `{Engine} (o : Outside) (path : string)
  : M unit :=
  fun w =>
    let w1 := emit (StorageState path) w in
    let target := path_resolve path in
    match write_outcome o with
    | None =>
        (Normal tt, set_file target (Regular (JSON_stringify (storage w1))) w1)
    | Some (e, leftover) => (Throw e, set_file target leftover w1)
    end.

Local Open Scope async_scope.

Definition reuse_message : string :=
  "[auth] Reusing cached session — cookies still valid.".
Definition login_message : string :=
  "[auth] No valid session found — authenticating...".

(** [setup('authenticate', async ({ page }) => { ... })]. *)
Definition setup_authenticate `{Engine} (o : Outside) : M unit :=
  valid <- call isAuthStateValid ;;
  if valid then
    console_log reuse_message ;;;
    ret tt
  else
    console_log login_message ;;;
    page_goto o "/" ;;;
    context_storageState o AUTH_STATE_PATH.

Local Close Scope async_scope.
Local Close Scope completion_scope.

(** * An engine to run the examples on

    A reader and a printer for the fragment of JSON that the examples use:
    the three literals, numbers, strings without escape sequences, arrays
    and objects.  A decimal literal becomes the binary64 value nearest to
    it, as [JSON.parse] makes it.  It serves the concrete examples only;
    no general theorem mentions it. *)

Module Sample.

Definition quote : ascii := ascii_of_nat 34.
Definition backslash : ascii := ascii_of_nat 92.

(** The examples spell a JSON text with apostrophes where the text has
    double quotes. *)
Fixpoint doc (s : string) : string :=
  match s with
  | EmptyString => EmptyString
  | String c rest =>
      String (if Ascii.eqb c "'"%char then quote else c) (doc rest)
  end.

Definition is_ws (c : ascii) : bool :=
  let n := nat_of_ascii c in
  Nat.eqb n 32 || Nat.eqb n 9 || Nat.eqb n 10 || Nat.eqb n 13.

Fixpoint skip_ws (s : string) : string :=
  match s with
  | String c rest => if is_ws c then skip_ws rest else s
  | EmptyString => s
  end.

Definition digit_of (c : ascii) : option N :=
  let n := N_of_ascii c in
  if (48 <=? n)%N && (n <=? 57)%N then Some (n - 48)%N else None.

Fixpoint read_digits (s : string) (acc : N) (count : nat)
  : N * nat * string :=
  match s with
  | String c rest =>
      match digit_of c with
      | Some d => read_digits rest (acc * 10 + d)%N (S count)
      | None => (acc, count, s)
      end
  | EmptyString => (acc, count, s)
  end.

(** The binary64 value nearest to [(-1)^neg * m * 10^e]. *)
Definition decimal_to_float (neg : bool) (m : N) (e : Z) : float :=
  match m with
  | N0 => if neg then PrimFloat.neg_zero else PrimFloat.zero
  | Npos p =>
      SF2Prim
        (if (0 <=? e)%Z
         then binary_normalize prec emax
                (if neg then Zneg p * 10 ^ e else Zpos p * 10 ^ e)%Z 0 neg
         else SFdiv prec emax (S754_finite neg p 0)
                (S754_finite false (Z.to_pos (10 ^ (- e))) 0))
  end.

Definition read_exponent (s : string) : option (Z * string) :=
  match s with
  | String c rest =>
      if Ascii.eqb c "e"%char || Ascii.eqb c "E"%char then
        let '(neg, digits) :=
          match rest with
          | String d r =>
              if Ascii.eqb d "-"%char then (true, r)
              else if Ascii.eqb d "+"%char then (false, r)
              else (false, rest)
          | EmptyString => (false, rest)
          end in
        let '(x, k, after) := read_digits digits 0%N 0 in
        match k with
        | O => None
        | S _ => Some (if neg then (- Z.of_N x)%Z else Z.of_N x, after)
        end
      else Some (0%Z, s)
  | EmptyString => Some (0%Z, s)
  end.

Definition read_number (s : string) : option (float * string) :=
  let '(neg, s1) :=
    match s with
    | String c rest => if Ascii.eqb c "-"%char then (true, rest) else (false, s)
    | EmptyString => (false, s)
    end in
  match s1 with
  | EmptyString => None
  | String c rest =>
      match digit_of c with
      | None => None
      | Some d =>
          let '(whole, s2) :=
            if N.eqb d 0 then (0%N, rest)
            else let '(m, _, r) := read_digits rest d 1 in (m, r) in
          let fraction :=
            match s2 with
            | String c2 r2 =>
                if Ascii.eqb c2 "."%char then
                  let '(m, k, r) := read_digits r2 whole 0 in
                  match k with
                  | O => None
                  | S _ => Some (m, k, r)
                  end
                else Some (whole, O, s2)
            | EmptyString => Some (whole, O, s2)
            end in
          match fraction with
          | None => None
          | Some (m, k, s3) =>
              match read_exponent s3 with
              | None => None
              | Some (x, s4) =>
                  Some (decimal_to_float neg m (x - Z.of_nat k), s4)
              end
          end
      end
  end.

(** The characters of a string, after its opening quote. *)
Fixpoint read_string (s : string) : option (string * string) :=
  match s with
  | EmptyString => None
  | String c rest =>
      if Ascii.eqb c quote then Some (EmptyString, rest)
      else if Ascii.eqb c backslash || Nat.ltb (nat_of_ascii c) 32 then None
      else match read_string rest with
           | Some (t, r) => Some (String c t, r)
           | None => None
           end
  end.

Fixpoint expect (word s : string) : option string :=
  match word, s with
  | EmptyString, _ => Some s
  | String a w, String b r => if Ascii.eqb a b then expect w r else None
  | String _ _, EmptyString => None
  end.

(** A later binding of a key replaces the earlier one. *)
Fixpoint set_own (k : string) (v : json) (props : list (string * json))
  : list (string * json) :=
  match props with
  | [] => [(k, v)]
  | (k', v') :: rest =>
      if String.eqb k' k then (k, v) :: rest
      else (k', v') :: set_own k v rest
  end.

Inductive mode : Type :=
| AValue
| Elements (acc : list json)
| Members (acc : list (string * json)).

Fixpoint read (fuel : nat) (m : mode) (s : string) : option (json * string) :=
  match fuel with
  | O => None
  | S fuel' =>
      match m with
      | AValue =>
          match skip_ws s with
          | EmptyString => None
          | String c rest =>
              if Ascii.eqb c "n"%char then
                option_map (pair JNull) (expect "ull" rest)
              else if Ascii.eqb c "t"%char then
                option_map (pair (JBool true)) (expect "rue" rest)
              else if Ascii.eqb c "f"%char then
                option_map (pair (JBool false)) (expect "alse" rest)
              else if Ascii.eqb c quote then
                match read_string rest with
                | Some (t, r) => Some (JStr t, r)
                | None => None
                end
              else if Ascii.eqb c "["%char then
                match skip_ws rest with
                | String c' r' =>
                    if Ascii.eqb c' "]"%char then Some (JArr [], r')
                    else read fuel' (Elements []) rest
                | EmptyString => None
                end
              else if Ascii.eqb c "{"%char then
                match skip_ws rest with
                | String c' r' =>
                    if Ascii.eqb c' "}"%char then Some (JObj [], r')
                    else read fuel' (Members []) rest
                | EmptyString => None
                end
              else
                match read_number (String c rest) with
                | Some (n, r) => Some (JNum n, r)
                | None => None
                end
          end
      | Elements acc =>
          match read fuel' AValue s with
          | None => None
          | Some (v, r) =>
              match skip_ws r with
              | String c r' =>
                  if Ascii.eqb c ","%char then read fuel' (Elements (v :: acc)) r'
                  else if Ascii.eqb c "]"%char then Some (JArr (rev (v :: acc)), r')
                  else None
              | EmptyString => None
              end
          end
      | Members acc =>
          match skip_ws s with
          | String c rest =>
              if Ascii.eqb c quote then
                match read_string rest with
                | None => None
                | Some (k, r) =>
                    match skip_ws r with
                    | String c1 r1 =>
                        if Ascii.eqb c1 ":"%char then
                          match read fuel' AValue r1 with
                          | None => None
                          | Some (v, r2) =>
                              match skip_ws r2 with
                              | String c2 r3 =>
                                  if Ascii.eqb c2 ","%char
                                  then read fuel' (Members (set_own k v acc)) r3
                                  else if Ascii.eqb c2 "}"%char
                                  then Some (JObj (set_own k v acc), r3)
                                  else None
                              | EmptyString => None
                              end
                          end
                        else None
                    | EmptyString => None
                    end
                end
              else None
          | EmptyString => None
          end
      end
  end.

Definition parse_text (raw : string) : option json :=
  match read (2 * String.length raw + 2) AValue raw with
  | Some (v, rest) =>
      match skip_ws rest with
      | EmptyString => Some v
      | String _ _ => None
      end
  | None => None
  end.

Definition string_to_number (s : string) : float :=
  match skip_ws s with
  | EmptyString => PrimFloat.zero
  | String c rest =>
      match read_number (String c rest) with
      | Some (n, after) =>
          match skip_ws after with
          | EmptyString => n
          | String _ _ => PrimFloat.nan
          end
      | None => PrimFloat.nan
      end
  end.

Definition print_N (n : N) : string := NilZero.string_of_uint (N.to_uint n).

Fixpoint zeros (n : nat) : string :=
  match n with
  | O => EmptyString
  | S n' => String "0"%char (zeros n')
  end.

Fixpoint strip_zeros (s : string) : string :=
  match s with
  | EmptyString => EmptyString
  | String c rest =>
      match strip_zeros rest with
      | EmptyString =>
          if Ascii.eqb c "0"%char then EmptyString else String c EmptyString
      | String c' r' => String c (String c' r')
      end
  end.

(** A finite binary64 value has an exact decimal expansion: for
    [m * 2^(-k)] it is [m * 5^k] with the point [k] places from the
    right.  Reading it back gives the same value. *)
Definition print_number (x : float) : string :=
  match Prim2SF x with
  | S754_nan | S754_infinity _ => "null"
  | S754_zero _ => "0"
  | S754_finite s m e =>
      let sign := if s then "-" else EmptyString in
      if (0 <=? e)%Z then sign ++ print_N (Npos m * 2 ^ Z.to_N e)
      else
        let k := Z.to_nat (- e) in
        let digits := print_N (Npos m * 5 ^ N.of_nat k) in
        let padded := zeros (S k - String.length digits) ++ digits in
        let cut := String.length padded - k in
        let whole := substring 0 cut padded in
        match strip_zeros (substring cut k padded) with
        | EmptyString => sign ++ whole
        | String c r => sign ++ whole ++ "." ++ String c r
        end
  end.

Fixpoint print (v : json) : string :=
  match v with
  | JNull => "null"
  | JBool true => "true"
  | JBool false => "false"
  | JNum n => print_number n
  | JStr s => String quote (s ++ String quote EmptyString)
  | JArr items =>
      "[" ++
      (fix elements (l : list json) : string :=
         match l with
         | [] => EmptyString
         | [x] => print x
         | x :: rest => print x ++ "," ++ elements rest
         end) items ++ "]"
  | JObj props =>
      "{" ++
      (fix members (l : list (string * json)) : string :=
         match l with
         | [] => EmptyString
         | (k, x) :: rest =>
             String quote (k ++ String quote EmptyString) ++ ":" ++ print x ++
             match rest with
             | [] => EmptyString
             | _ :: _ => "," ++ members rest
             end
         end) props ++ "}"
  end.

Definition resolve (p : string) : string :=
  match p with
  | String c _ => if Ascii.eqb c "/"%char then p else "/work/" ++ p
  | EmptyString => "/work"
  end.

Definition engine : Engine :=
  {| JSON_parse := parse_text;
     JSON_stringify := print;
     StringToNumber := string_to_number;
     NumberToString := print_number;
     path_resolve := resolve |}.

(** A world with one entry at the resolved state path, the clock at
    [ms] milliseconds, an empty browser context and nothing done yet. *)
Definition world_with (entry : fs_entry) (ms : float) : World :=
  {| files := fun p =>
                if String.eqb p (resolve AUTH_STATE_PATH) then entry
                else Missing;
     Date_now := ms;
     storage := JObj [("cookies", JArr []); ("origins", JArr [])];
     trace := [] |}.

End Sample.

(** * The persisted session state, as the gate reads it

    The state file of Playwright is an object with a [cookies] array of
    cookie records and an [origins] array.  The gate reads [cookies] and,
    of each cookie, [expires]; only that much of the shape is asked of a
    parsed session state here, so that every statement below covers every
    state file Playwright can write. *)

(** The [expires] field of a cookie record: [Some None] when the record
    has none, [Some (Some e)] when it holds the number [e]; [None] when
    the value is no cookie record. *)
Definition cookie_expires (cookie : json) : option (option float) :=
  match cookie with
  | JObj props =>
      match own props "expires" with
      | None => Some None
      | Some (JNum e) => Some (Some e)
      | Some _ => None
      end
  | _ => None
  end.

Definition is_cookie (cookie : json) : bool :=
  match cookie_expires cookie with
  | Some _ => true
  | None => false
  end.

(** The cookie records of a parsed session state. *)
Definition cookies_of (state : json) : option (list json) :=
  match state with
  | JObj props =>
      match own props "cookies" with
      | Some (JArr cookies) =>
          if forallb is_cookie cookies then Some cookies else None
      | _ => None
      end
  | _ => None
  end.

(** The state path holds a text that parses as a session state with these
    cookie records. *)
Definition holds_session `{Engine} (w : World) (cookies : list json) : Prop :=
  exists raw state,
    files w (path_resolve AUTH_STATE_PATH) = Regular raw /\
    JSON_parse raw = Some state /\
    cookies_of state = Some cookies.

(** The cookie has the expiry [e]. *)
Definition expires_at (cookie : json) (e : float) : Prop :=
  cookie_expires cookie = Some (Some e).

(** What the callback of [some] computes on a cookie record. *)
Definition expired_at (now : float) (cookie : json) : bool :=
  match cookie_expires cookie with
  | Some (Some e) => Number.lt Number.zero e && Number.lt e now
  | _ => false
  end.

(** ** The wording of the specification, for comparison

    The specification calls an [expires] of [-1], or an absent one, the
    sentinel of a cookie without fixed expiry, and calls a state valid when
    every other cookie expires strictly after the check instant. *)

Definition spec_no_fixed_expiry (expires : option float) : bool :=
  match expires with
  | None => true
  | Some e => PrimFloat.eqb e (-1)%float
  end.

Definition spec_valid (now : float) (cookies : list json) : Prop :=
  Forall (fun cookie =>
            forall e, expires_at cookie e ->
                      spec_no_fixed_expiry (Some e) = false ->
                      Number.lt now e = true) cookies.

(** The specification asks of a captured state, for the round trip, that
    at least one of its cookies has no expiry or a future one. *)
Definition spec_has_lasting_cookie (now : float) (cookies : list json) : Prop :=
  exists c x,
    In c cookies /\ cookie_expires c = Some x /\
    (spec_no_fixed_expiry x = true \/
     exists e, x = Some e /\ Number.lt now e = true).

(** The world in which the state path holds this entry. *)
Definition at_state_path `{Engine} (w : World) (entry : fs_entry) : Prop :=
  files w (path_resolve AUTH_STATE_PATH) = entry.

(** How many times a run wrote the state file. *)
Definition is_capture (e : event) : bool :=
  match e with
  | StorageState _ => true
  | _ => false
  end.

Definition captures (w : World) : nat :=
  List.length (filter is_capture (trace w)).

(** The same world at another reading of the clock. *)
Definition at_time (ms : float) (w : World) : World :=
  {| files := files w; Date_now := ms; storage := storage w;
     trace := trace w |}.

(** The world in which the capture takes place, in a run that found the
    cache invalid and logged in with the context left holding [s]. *)
Definition after_login (s : json) (w : World) : World :=
  emit (StorageState AUTH_STATE_PATH)
    (set_storage s (emit (Goto "/") (emit (Log login_message) w))).

(** The [cookies] array of a parsed value, whatever its elements are. *)
Definition cookie_array (state : json) : option (list json) :=
  match state with
  | JObj props =>
      match own props "cookies" with
      | Some (JArr cookies) => Some cookies
      | _ => None
      end
  | _ => None
  end.

(** The state path offers nothing to reuse: no entry, an entry that
    cannot be read, a text that is not JSON, or a JSON value that is not an
    object with a [cookies] array. *)
Inductive cold_cache `{Engine} (w : World) : Prop :=
| cold_missing :
    at_state_path w Missing -> cold_cache w
| cold_unreadable (code : string) :
    at_state_path w (Unreadable code) -> cold_cache w
| cold_not_json (raw : string) :
    at_state_path w (Regular raw) -> JSON_parse raw = None -> cold_cache w
| cold_no_cookie_array (raw : string) (state : json) :
    at_state_path w (Regular raw) -> JSON_parse raw = Some state ->
    cookie_array state = None -> cold_cache w.

(** The wording of the specification: the content parses as a session
    state. *)
Definition spec_parses_as_session `{Engine} (w : World) : Prop :=
  exists cookies, holds_session w cookies.

(** ** Example worlds *)

Module Examples.

Import Sample.

(** 2023-11-14T22:13:20Z, in milliseconds. *)
Definition t0 : float := 1700000000000%float.

(** One cookie that expires at the very second of the check. *)
Definition boundary_text : string :=
  doc "{'cookies':[{'name':'sid','value':'1','domain':'example.com','path':'/','expires':1700000000}],'origins':[]}".
Definition boundary_cookie : json :=
  JObj [("name", JStr "sid"); ("value", JStr "1");
        ("domain", JStr "example.com"); ("path", JStr "/");
        ("expires", JNum 1700000000%float)].
Definition boundary_world : World := world_with (Regular boundary_text) t0.

(** One cookie whose [expires] is 0, the first second of 1970. *)
Definition epoch_text : string :=
  doc "{'cookies':[{'name':'sid','value':'1','domain':'example.com','path':'/','expires':0}],'origins':[]}".
Definition epoch_cookie : json :=
  JObj [("name", JStr "sid"); ("value", JStr "1");
        ("domain", JStr "example.com"); ("path", JStr "/");
        ("expires", JNum 0%float)].
Definition epoch_world : World := world_with (Regular epoch_text) t0.

(** A [cookies] array that holds a number where a cookie record
    belongs. *)
Definition misshapen_text : string := doc "{'cookies':[42],'origins':[]}".
Definition misshapen_world : World :=
  world_with (Regular misshapen_text) t0.

(** A cookie record whose [expires] is a string. *)
Definition mistyped_text : string :=
  doc "{'cookies':[{'name':'sid','value':'1','expires':'never'}],'origins':[]}".
Definition mistyped_world : World := world_with (Regular mistyped_text) t0.

(** Scenario 5 of the specification. *)
Definition not_json_world : World := world_with (Regular "{not json") t0.

(** Scenario 2 of the specification. *)
Definition empty_world : World :=
  world_with (Regular (doc "{'cookies': [], 'origins': []}")) t0.

(** A session cookie and a cookie ten years ahead (scenarios 3 and 6). *)
Definition session_cookie : json :=
  JObj [("name", JStr "theme"); ("value", JStr "dark"); ("expires", JNum (-1)%float)].
Definition lasting_cookie : json :=
  JObj [("name", JStr "sid"); ("value", JStr "1"); ("expires", JNum 2015000000%float)].
Definition fresh_state : json :=
  JObj [("cookies", JArr [session_cookie; lasting_cookie]); ("origins", JArr [])].

(** A session cookie next to one that lives for half a millisecond after
    the capture at [t0] (2^-11 s, an exact binary64 value). *)
Definition brief_cookie : json :=
  JObj [("name", JStr "csrf"); ("value", JStr "x");
        ("expires", JNum 1700000000.00048828125%float)].
Definition brief_state : json :=
  JObj [("cookies", JArr [session_cookie; brief_cookie]); ("origins", JArr [])].

(** A cold start: nothing at the state path. *)
Definition cold_world : World := world_with Missing t0.

(** The login succeeds and leaves [s] in the context; the write
    succeeds. *)
Definition smooth (s : json) : Outside :=
  {| goto_outcome := Normal s; write_outcome := None |}.

(** The login succeeds; the write fails on a full disk and leaves
    nothing at the path. *)
Definition disk_full (s : json) : Outside :=
  {| goto_outcome := Normal s;
     write_outcome := Some (SystemError "ENOSPC", Missing) |}.

(** One millisecond after [t0]. *)
Definition t1 : float := 1700000000001%float.

Definition boundary_state : json :=
  JObj [("cookies", JArr [boundary_cookie]); ("origins", JArr [])].
Definition epoch_state : json :=
  JObj [("cookies", JArr [epoch_cookie]); ("origins", JArr [])].

(** The browser context holds [s] and nothing is cached yet. *)
Definition logged_in (s : json) : World := set_storage s cold_world.

(** The world after the capture of [s] at [t0]. *)
Definition captured (s : json) : World :=
  snd (@context_storageState engine (smooth s) AUTH_STATE_PATH (logged_in s)).

(** Scenario 3 of the specification: one cookie, good for ten more
    years. *)
Definition lasting_state : json :=
  JObj [("cookies", JArr [lasting_cookie]); ("origins", JArr [])].
Definition lasting_world : World :=
  world_with (Regular (print lasting_state)) t0.

(** The captured world, looked at again one millisecond later. *)
Definition recheck (s : json) : World := at_time t1 (captured s).

(** A cached session that is still good at [t0]. *)
Definition warm_world : World :=
  world_with (Regular (print fresh_state)) t0.

End Examples.

(** * The gate on any [cookies] array

    What follows speaks of every array that can sit under [cookies], not
    only of arrays of well-formed cookie records. *)

(** The callback of [some] completes on the entry, and with [false]. *)
Definition entry_passes `{Engine} (now : float) (entry : json) : bool :=
  match cookie_expired now entry with
  | Normal false => true
  | _ => false
  end.

(** The state path holds a text that parses as an object whose [cookies]
    is this array. *)
Definition holds_array `{Engine} (w : World) (entries : list json) : Prop :=
  exists raw state,
    at_state_path w (Regular raw) /\
    JSON_parse raw = Some state /\
    cookie_array state = Some entries.

(** ** More example worlds *)

Module MoreExamples.

Import Sample.

(** A session cookie followed by [null]. *)
Definition null_entry_world : World :=
  world_with (Regular (doc "{'cookies':[{'name':'theme','expires':-1},null],'origins':[]}"))
    Examples.t0.

(** The cookies of [Examples.fresh_state] in the other order. *)
Definition swapped_state : json :=
  JObj [("cookies", JArr [Examples.lasting_cookie; Examples.session_cookie]);
        ("origins", JArr [])].
Definition swapped_world : World :=
  world_with (Regular (print swapped_state)) Examples.t0.

(** Cookies with the expiries of [Examples.fresh_state] under other
    names, and a non-empty [origins]. *)
Definition renamed_cookies : list json :=
  [JObj [("name", JStr "lang"); ("value", JStr "en"); ("expires", JNum (-1)%float)];
   JObj [("name", JStr "token"); ("value", JStr "abc");
         ("domain", JStr "example.org"); ("expires", JNum 2015000000%float)]].
Definition renamed_state : json :=
  JObj [("cookies", JArr renamed_cookies);
        ("origins", JArr [JObj [("origin", JStr "https://example.org")]])].
Definition renamed_world : World :=
  world_with (Regular (print renamed_state)) Examples.t0.

(** A context in which the login left no cookie. *)
Definition bare_state : json :=
  JObj [("cookies", JArr []); ("origins", JArr [])].


(** The world after a whole run of the setup step from a cold start, in
    which the login left [s] in the context, read again at [ms]. *)
Definition after_first_run (s : json) (ms : float) : World :=
  at_time ms
    (snd (@setup_authenticate engine (Examples.smooth s) Examples.cold_world)).

End MoreExamples.

(** * [buildUrl] of utils/api-helpers.ts

    [new URLSearchParams(params)] takes the own enumerable properties of
    the record in their enumeration order; the record is kept here as the
    list of its entries in that order.  [toString()] is the
    application/x-www-form-urlencoded serializer of the URL standard, run
    on the UTF-8 bytes of the names and values. *)

Module Url.

(** The bytes that the application/x-www-form-urlencoded percent-encode
    set leaves alone: ASCII letters and digits, [*], [-], [.] and [_]. *)
Definition unreserved (c : ascii) : bool :=
  let n := nat_of_ascii c in
  (Nat.leb 48 n && Nat.leb n 57) || (Nat.leb 65 n && Nat.leb n 90) ||
  (Nat.leb 97 n && Nat.leb n 122) ||
  Nat.eqb n 42 || Nat.eqb n 45 || Nat.eqb n 46 || Nat.eqb n 95.

(** An upper-case hexadecimal digit. *)
Definition hex_digit (n : nat) : ascii :=
  if Nat.ltb n 10 then ascii_of_nat (48 + n) else ascii_of_nat (55 + n).

(** Percent-encoding of one byte, a space becoming [+]. *)
Definition encode_byte (c : ascii) : string :=
  if unreserved c then String c EmptyString
  else if Ascii.eqb c " "%char then "+"
  else
    let n := nat_of_ascii c in
    String "%"%char
      (String (hex_digit (n / 16)) (String (hex_digit (n mod 16)) EmptyString)).

Fixpoint urlencode (s : string) : string :=
  match s with
  | EmptyString => EmptyString
  | String c rest => encode_byte c ++ urlencode rest
  end.

(** The serializer: every pair as [name=value], an [&] before each pair
    when the output so far is not empty. *)
Definition serialize_step (output : string) (pair : string * string)
  : string :=
  (match output with
   | EmptyString => EmptyString
   | String _ _ => output ++ "&"
   end) ++ urlencode (fst pair) ++ "=" ++ urlencode (snd pair).

Definition serialize (pairs : list (string * string)) : string :=
  fold_left serialize_step pairs EmptyString.

(** [buildUrl(path, params)]: the empty string is the only falsy
    string. *)
Definition buildUrl (path : string) (params : list (string * string))
  : string :=
  let queryString := serialize params in
  match queryString with
  | EmptyString => path
  | String _ _ => path ++ "?" ++ queryString
  end.

(** To state properties: the characters of a string, and how often one
    occurs. *)
Fixpoint all_chars (p : ascii -> bool) (s : string) : bool :=
  match s with
  | EmptyString => true
  | String c rest => p c && all_chars p rest
  end.

Fixpoint occurrences (c : ascii) (s : string) : nat :=
  match s with
  | EmptyString => 0
  | String d rest => (if Ascii.eqb c d then 1 else 0) + occurrences c rest
  end.


(** The characters an encoded name or value is made of. *)
Definition encoded_char (c : ascii) : bool :=
  unreserved c || Ascii.eqb c "+"%char || Ascii.eqb c "%"%char.

(** The characters a query string is made of. *)
Definition query_char (c : ascii) : bool :=
  unreserved c || Ascii.eqb c "+"%char || Ascii.eqb c "%"%char ||
  Ascii.eqb c "="%char || Ascii.eqb c "&"%char.

End Url.

(** * The environment helpers (utils/env.ts, the unnamed part that
      exports [getBaseUrl])

    [process.env] maps the name of a variable to its value, a string, or to
    [undefined]; names are taken not to be those of properties that
    [process.env] inherits ([toString], [constructor], ...).  A call of
    [console.warn] adds its message to the list that a function returns
    beside its result. *)

Module Env.

Definition environment : Type := string -> option string.

Definition quote : string := String (ascii_of_nat 34) EmptyString.

(** [ToBoolean] of a string or [undefined]: only a non-empty string is
    truthy. *)
Definition truthy (v : option string) : bool :=
  match v with
  | Some (String _ _) => true
  | _ => false
  end.

(** [a || b] on a string or [undefined] and a string. *)
Definition or_else (v : option string) (fallback : string) : string :=
  match v with
  | Some (String c r) => String c r
  | _ => fallback
  end.

Definition warnIfMissing (env : environment) (varName defaultValue : string)
  : list string :=
  if negb (truthy (env varName)) then
    ["[env] WARNING: " ++ varName ++ " is not set. Using default: " ++
     quote ++ defaultValue ++ quote ++ ". " ++
     "Copy .env.example to .env and set your values."]
  else [].

Definition getBaseUrl (env : environment) : string * list string :=
  let defaultValue := "https://example.com" in
  let warnings := warnIfMissing env "BASE_URL" defaultValue in
  (or_else (env "BASE_URL") defaultValue, warnings).

Definition getApiBaseUrl (env : environment) : string * list string :=
  let defaultValue := "https://api.example.com" in
  let warnings := warnIfMissing env "API_BASE_URL" defaultValue in
  (or_else (env "API_BASE_URL") defaultValue, warnings).

(** [getEnvVar(name, defaultValue)]; a call without second argument is a
    call with the empty string. *)
Definition getEnvVar (env : environment) (name defaultValue : string)
  : string * list string :=
  match env name with
  | None | Some EmptyString =>
      (defaultValue,
       match defaultValue with
       | EmptyString =>
           ["[env] WARNING: " ++ name ++ " is not set and no default provided."]
       | String _ _ => []
       end)
  | Some (String c r) => (String c r, [])
  end.

Definition isCI (env : environment) : bool :=
  match env "CI" with
  | Some v => String.eqb v "true" || String.eqb v "1"
  | None => false
  end.

(** ** [String.prototype.trim]

    On the UTF-8 bytes of a well-formed string.  The white space and line
    terminators of ECMAScript are U+0009 to U+000D, U+0020, U+00A0,
    U+1680, U+2000 to U+200A, U+2028, U+2029, U+202F, U+205F, U+3000 and
    U+FEFF. *)

(** The rest of the string after one leading white space. *)
Definition strip_one (s : string) : option string :=
  match s with
  | EmptyString => None
  | String a r =>
      let n := nat_of_ascii a in
      if (Nat.leb 9 n && Nat.leb n 13) || Nat.eqb n 32 then Some r
      else
        match r with
        | EmptyString => None
        | String b r2 =>
            let m := nat_of_ascii b in
            if Nat.eqb n 194 && Nat.eqb m 160 then Some r2
            else
              match r2 with
              | EmptyString => None
              | String c r3 =>
                  let k := nat_of_ascii c in
                  if (Nat.eqb n 225 && Nat.eqb m 154 && Nat.eqb k 128) ||
                     (Nat.eqb n 226 && Nat.eqb m 128 &&
                      ((Nat.leb 128 k && Nat.leb k 138) || Nat.eqb k 168 ||
                       Nat.eqb k 169 || Nat.eqb k 175)) ||
                     (Nat.eqb n 226 && Nat.eqb m 129 && Nat.eqb k 159) ||
                     (Nat.eqb n 227 && Nat.eqb m 128 && Nat.eqb k 128) ||
                     (Nat.eqb n 239 && Nat.eqb m 187 && Nat.eqb k 191)
                  then Some r3
                  else None
              end
        end
  end.

Fixpoint trim_start_within (fuel : nat) (s : string) : string :=
  match fuel with
  | O => s
  | S fuel' =>
      match strip_one s with
      | Some rest => trim_start_within fuel' rest
      | None => s
      end
  end.

Definition trim_start (s : string) : string :=
  trim_start_within (String.length s) s.

(** The string without the longest suffix made of white space. *)
Fixpoint trim_end (s : string) : string :=
  match s with
  | EmptyString => EmptyString
  | String c r =>
      match trim_start (String c r) with
      | EmptyString => EmptyString
      | String _ _ => String c (trim_end r)
      end
  end.

Definition trim (s : string) : string := trim_end (trim_start s).

(** The callback of [filter] in [validateRequiredEnvVars]:
    [!process.env[varName] || process.env[varName]!.trim() === '']. *)
Definition is_missing (env : environment) (varName : string) : bool :=
  if negb (truthy (env varName)) then true
  else
    match env varName with
    | Some v => String.eqb (trim v) EmptyString
    | None => false
    end.

(** A function returns, or throws an [Error] with a message. *)
Inductive outcome (A : Type) : Type :=
| Returned (a : A)
| ThrewError (message : string).

Arguments Returned {A} a.
Arguments ThrewError {A} message.

Definition validateRequiredEnvVars (env : environment)
    (requiredVars : list string) : outcome unit :=
  let missing := filter (is_missing env) requiredVars in
  if Nat.ltb 0 (List.length missing) then
    ThrewError
      ("[env] Missing required environment variables: " ++
       String.concat ", " missing ++ ". " ++
       "Please check your .env file.")
  else Returned tt.

(** ** The environment in playwright.config.ts

    The fields of the configuration that are computed from
    [process.env]. *)

Record config : Type := {
  forbidOnly : bool;        (* !!process.env.CI *)
  retries : nat;            (* process.env.CI ? 2 : 0 *)
  workers : option nat;     (* process.env.CI ? 1 : undefined *)
  baseURL : string          (* process.env.BASE_URL || 'http://example.com' *)
}.

Definition playwright_config (env : environment) : config :=
  {| forbidOnly := negb (negb (truthy (env "CI")));
     retries := if truthy (env "CI") then 2 else 0;
     workers := if truthy (env "CI") then Some 1 else None;
     baseURL := or_else (env "BASE_URL") "http://example.com" |}.

(** An environment given by a list of bindings. *)
Fixpoint of_list (bindings : list (string * string)) : environment :=
  fun name =>
    match bindings with
    | [] => None
    | (k, v) :: rest => if String.eqb k name then Some v else of_list rest name
    end.

End Env.

(** * The API helpers (utils/api-helpers.ts) and the [apiContext]
      fixture (tests/fixtures/base.fixture.ts) *)

Module Api.

(** What the helpers observe of an [APIResponse] of Playwright:
    [status()], [statusText()], [url()], [headers()] (an object whose
    property names are the header names in lower case) and the outcome of
    [text()], which rejects for instance on a disposed response. *)
Record APIResponse : Type := {
  status : float;
  statusText : string;
  url : string;
  headers : list (string * string);
  text : completion string
}.

(** An [async] helper rejects with what an awaited call threw, or because
    an [expect] is not met, in which case the error carries the message
    given to [expect]. *)
Inductive failure : Type :=
| Rejected (e : exn)
| Unmet (message : string).

Inductive settled (A : Type) : Type :=
| Resolved (a : A)
| Failed (f : failure).

Arguments Resolved {A} a.
Arguments Failed {A} f.

Fixpoint lookup (name : string) (entries : list (string * string))
  : option string :=
  match entries with
  | [] => None
  | (k, v) :: rest => if String.eqb k name then Some v else lookup name rest
  end.

(** [s.includes(part)], which [toContain] applies to a string. *)
Fixpoint includes (part s : string) : bool :=
  String.prefix part s ||
  match s with
  | EmptyString => false
  | String _ rest => includes part rest
  end.

(** [response.json()] of Playwright: [JSON.parse] of the text. *)
Definition response_json `{Engine} (response : APIResponse)
  : settled value :=
  match text response with
  | Throw e => Failed (Rejected e)
  | Normal content =>
      match JSON_parse content with
      | Some body => Resolved (Val body)
      | None => Failed (Rejected SyntaxError)
      end
  end.

(** [expect(v, message).toBeDefined()]. *)
Definition expect_toBeDefined (v : value) (message : string) : settled unit :=
  match v with
  | Undefined => Failed (Unmet message)
  | Val _ => Resolved tt
  end.

(** [expect(a, message).toBe(b)] on numbers: [Object.is], for which NaN
    is NaN and [+0] is not [-0]. *)
Definition expect_toBe (a b : float) (message : string) : settled unit :=
  if PrimFloat.Leibniz.eqb a b then Resolved tt else Failed (Unmet message).

Definition assertJsonResponse `{Engine} (response : APIResponse)
  : settled value :=
  let contentType :=
    match lookup "content-type" (headers response) with
    | Some v => v
    | None => EmptyString
    end in
  if negb (includes "application/json" contentType) then
    Failed (Unmet ("Expected Content-Type to include 'application/json', got '"
                   ++ contentType ++ "'"))
  else
    match response_json response with
    | Failed f => Failed f
    | Resolved body =>
        match expect_toBeDefined body
                "Response body should not be null or undefined" with
        | Failed f => Failed f
        | Resolved _ => Resolved body
        end
    end.

Definition unreadable_body : string := "[Could not read response body]".

(** [try { bodyText = await response.text() } catch { ... }]. *)
Definition body_text (response : APIResponse) : string :=
  match text response with
  | Normal content => content
  | Throw _ => unreadable_body
  end.

Definition status_message `{Engine} (response : APIResponse)
    (expectedStatus : float) (bodyText : string) : string :=
  "Expected status " ++ NumberToString expectedStatus ++ " for " ++
  url response ++ ", got " ++ NumberToString (status response) ++
  ". Body: " ++ bodyText.

(** [a !== b] on numbers. *)
Definition strict_not_equal (a b : float) : bool := negb (PrimFloat.eqb a b).

Definition assertStatus `{Engine} (response : APIResponse)
    (expectedStatus : float) : settled unit :=
  if strict_not_equal (status response) expectedStatus then
    let bodyText := body_text response in
    expect_toBe (status response) expectedStatus
      (status_message response expectedStatus bodyText)
  else Resolved tt.

Definition newline : string := String (ascii_of_nat 10) EmptyString.

Definition headers_object (entries : list (string * string)) : json :=
  JObj (map (fun kv => (fst kv, JStr (snd kv))) entries).

(** The template literal that [logResponse] prints. *)
Definition log_entry `{Engine} (response : APIResponse) (label : string)
    (bodyText : string) : string :=
  newline ++ "=== " ++ label ++ " ===" ++ newline ++
  "URL:     " ++ url response ++ newline ++
  "Status:  " ++ NumberToString (status response) ++ " " ++
  statusText response ++ newline ++
  "Headers: " ++ JSON_stringify (headers_object (headers response)) ++
  newline ++
  "Body:    " ++ bodyText ++ newline ++
  "==================".

(** [logResponse(response, label)]: the console before and after; a call
    without label is a call with ['API Response']. *)
Definition logResponse `{Engine} (response : APIResponse) (label : string)
    (console : list string) : settled unit * list string :=
  let bodyText := body_text response in
  (Resolved tt, (console ++ [log_entry response label bodyText])%list).

(** ** The options handed to [playwright.request.newContext] *)

(** [{ ...target, [k]: v }]: an assignment keeps the place of a property
    that is there and appends one that is not. *)
Fixpoint assign (k v : string) (target : list (string * string))
  : list (string * string) :=
  match target with
  | [] => [(k, v)]
  | (k', v') :: rest =>
      if String.eqb k' k then (k, v) :: rest else (k', v') :: assign k v rest
  end.

(** [{ ...target, ...source }]. *)
Definition spread (target source : list (string * string))
  : list (string * string) :=
  fold_left (fun acc kv => assign (fst kv) (snd kv) acc) source target.

Record context_options : Type := {
  option_baseURL : string;
  extraHTTPHeaders : list (string * string)
}.

Definition default_headers : list (string * string) :=
  [("Accept", "application/json"); ("Content-Type", "application/json")].

(** [createRequestContext(playwright, baseURL, extraHeaders)]: the
    argument of the call of [newContext] whose promise it returns; a call
    without [extraHeaders] is a call with the empty record. *)
Definition createRequestContext (baseURL : string)
    (extraHeaders : list (string * string)) : context_options :=
  {| option_baseURL := baseURL;
     extraHTTPHeaders := spread default_headers extraHeaders |}.

(** The [apiContext] fixture: the argument of its call of
    [newContext]. *)
Definition apiContext_options (env : Env.environment) : context_options :=
  let apiBaseUrl := Env.or_else (env "API_BASE_URL") "https://httpbin.org" in
  {| option_baseURL := apiBaseUrl;
     extraHTTPHeaders :=
       [("Accept", "application/json"); ("Content-Type", "application/json")] |}.

(** [response.headers()['content-type'] ?? ''], to state properties. *)
Definition content_type (response : APIResponse) : string :=
  match lookup "content-type" (headers response) with
  | Some v => v
  | None => EmptyString
  end.

(** Example responses. *)
Definition healthy : APIResponse :=
  {| status := 200%float; statusText := "OK";
     url := "https://httpbin.org/get";
     headers := [("content-type", "application/json; charset=utf-8")];
     text := Normal "null" |}.

Definition disposed : APIResponse :=
  {| status := 503%float; statusText := "Service Unavailable";
     url := "https://httpbin.org/status/503";
     headers := [("content-type", "text/html")];
     text := Throw (BrowserError "Response has been disposed") |}.

End Api.

(** * The page objects ([BasePage] and [LoginPage], the unnamed parts
      that define them)

    A method of a page object is a sequence of awaited calls on the page
    of Playwright.  What the page does is outside the repository: a
    browser is given here by how it completes each call, knowing the calls
    made before, and a method maps the calls made so far to its completion
    and the calls made after it. *)

Module Pages.

Inductive locator : Type :=
| ByRole (role : string) (name : option string)
| ByLabel (text : string)
| ByTestId (testId : string).

Inductive call : Type :=
| PageGoto (path : string)
| WaitForLoadState (state : string)
| Fill (target : locator) (value : string)
| Click (target : locator)
| IsVisible (target : locator)
| TextContent (target : locator).

Record browser : Type := {
  on_goto : list call -> string -> completion unit;
  on_wait : list call -> string -> completion unit;
  on_fill : list call -> locator -> string -> completion unit;
  on_click : list call -> locator -> completion unit;
  on_isVisible : list call -> locator -> completion bool;
  on_textContent : list call -> locator -> completion (option string)
}.

Definition method (A : Type) : Type :=
  browser -> list call -> completion A * list call.

Definition pure {A : Type} (a : A) : method A := fun _ calls => (Normal a, calls).

Definition await {A B : Type} (m : method A) (k : A -> method B) : method B :=
  fun b calls =>
    match m b calls with
    | (Normal a, calls') => k a b calls'
    | (Throw e, calls') => (Throw e, calls')
    end.

(** [promise.catch(() => fallback)]. *)
Definition catch_with {A : Type} (m : method A) (fallback : A) : method A :=
  fun b calls =>
    match m b calls with
    | (Normal a, calls') => (Normal a, calls')
    | (Throw _, calls') => (Normal fallback, calls')
    end.

Definition page_goto (path : string) : method unit :=
  fun b calls => (on_goto b calls path, (calls ++ [PageGoto path])%list).

Definition page_waitForLoadState (state : string) : method unit :=
  fun b calls => (on_wait b calls state, (calls ++ [WaitForLoadState state])%list).



Definition locator_isVisible (target : locator) : method bool :=
  fun b calls => (on_isVisible b calls target, (calls ++ [IsVisible target])%list).

Definition locator_textContent (target : locator) : method (option string) :=
  fun b calls =>
    (on_textContent b calls target, (calls ++ [TextContent target])%list).

(** ** [BasePage] *)

Definition waitForPageLoad : method unit :=
  page_waitForLoadState "domcontentloaded".

Definition goto (path : string) : method unit :=
  await (page_goto path) (fun _ => waitForPageLoad).

(** ** [LoginPage] *)

Definition usernameInput : locator := ByRole "textbox" (Some "Username").
Definition errorMessage : locator := ByRole "alert" None.
Definition loginForm : locator := ByTestId "login-form".

Definition navigateToLogin : method unit := goto "/login".





Definition getErrorMessage : method (option string) :=
  await (catch_with (locator_isVisible errorMessage) false) (fun isVisible =>
  if isVisible then locator_textContent errorMessage else pure None).

Definition isLoginFormVisible : method bool :=
  catch_with (locator_isVisible usernameInput) false.

(** A browser in which every call succeeds, nothing is visible, and the
    password field cannot be filled. *)
Definition stuck_password : browser :=
  {| on_goto := fun _ _ => Normal tt;
     on_wait := fun _ _ => Normal tt;
     on_fill := fun _ target _ =>
       match target with
       | ByLabel _ => Throw (BrowserError "Timeout 10000ms exceeded")
       | _ => Normal tt
       end;
     on_click := fun _ _ => Normal tt;
     on_isVisible := fun _ _ => Throw (BrowserError "Target closed");
     on_textContent := fun _ _ => Normal None |}.

End Pages.

(** * Comparison of numbers *)

Section NumberFacts.

Lemma SFcompare_swap (x y : spec_float) :
  SFcompare y x = option_map CompOpp (SFcompare x y).
Proof.
  destruct x as [sx | sx | | sx mx ex], y as [sy | sy | | sy my ey];
    try destruct sx; try destruct sy; try reflexivity; cbn.
  - rewrite (Z.compare_antisym ex ey).
    destruct (ex ?= ey)%Z; cbn; try reflexivity.
    now rewrite (Pos.compare_cont_antisym mx my Eq).
  - rewrite (Z.compare_antisym ex ey).
    destruct (ex ?= ey)%Z; cbn; try reflexivity.
    now rewrite (Pos.compare_cont_antisym mx my Eq).
Qed.

Lemma SFcompare_none (x y : spec_float) :
  SFcompare x y = None -> x = S754_nan \/ y = S754_nan.
Proof.
  destruct x as [sx | sx | | sx mx ex], y as [sy | sy | | sy my ey];
    cbn; intros H; try discriminate H; auto.
Qed.

Lemma is_nan_false (x : float) :
  Number.is_nan x = false -> Prim2SF x <> S754_nan.
Proof.
  unfold Number.is_nan, PrimFloat.is_nan. rewrite eqb_spec.
  intros H Hx. rewrite Hx in H. discriminate H.
Qed.

Lemma lt_asym (x y : float) :
  Number.lt x y = true -> Number.lt y x = false.
Proof.
  unfold Number.lt. rewrite !ltb_spec. unfold SFltb.
  rewrite (SFcompare_swap (Prim2SF x) (Prim2SF y)).
  destruct (SFcompare (Prim2SF x) (Prim2SF y)) as [[ | | ] | ];
    cbn; congruence.
Qed.

Lemma le_not_lt (x y : float) :
  Number.le x y = true -> Number.lt y x = false.
Proof.
  unfold Number.le, Number.lt. rewrite ltb_spec, leb_spec.
  unfold SFltb, SFleb.
  rewrite (SFcompare_swap (Prim2SF x) (Prim2SF y)).
  destruct (SFcompare (Prim2SF x) (Prim2SF y)) as [[ | | ] | ];
    cbn; congruence.
Qed.

Lemma not_lt_le (x y : float) :
  Number.is_nan x = false -> Number.is_nan y = false ->
  Number.lt y x = false -> Number.le x y = true.
Proof.
  intros Hx Hy. apply is_nan_false in Hx. apply is_nan_false in Hy.
  unfold Number.le, Number.lt. rewrite ltb_spec, leb_spec.
  unfold SFltb, SFleb.
  rewrite (SFcompare_swap (Prim2SF x) (Prim2SF y)).
  destruct (SFcompare (Prim2SF x) (Prim2SF y)) as [[ | | ] | ] eqn:Hc;
    cbn; try congruence.
  destruct (SFcompare_none _ _ Hc); contradiction.
Qed.

Lemma SFcompare_refl (x : spec_float) :
  x <> S754_nan -> SFcompare x x = Some Eq.
Proof.
  destruct x as [sx | sx | | sx mx ex]; cbn; intros H.
  - reflexivity.
  - now destruct sx.
  - now elim H.
  - rewrite Z.compare_refl, Pos.compare_cont_refl. now destruct sx.
Qed.

Lemma SFcompare_nan_r (x : spec_float) : SFcompare x S754_nan = None.
Proof. now destruct x. Qed.

Lemma lt_not_nan_r (x y : float) :
  Number.lt x y = true -> Number.is_nan y = false.
Proof.
  unfold Number.lt, Number.is_nan, PrimFloat.is_nan.
  rewrite ltb_spec, eqb_spec. unfold SFltb, SFeqb. intros H.
  rewrite SFcompare_refl; [reflexivity | ].
  intros Hy. rewrite Hy, SFcompare_nan_r in H. discriminate H.
Qed.

Lemma eq_le (x y : float) :
  PrimFloat.eqb x y = true -> Number.le x y = true.
Proof.
  unfold Number.le. rewrite eqb_spec, leb_spec. unfold SFeqb, SFleb.
  destruct (SFcompare (Prim2SF x) (Prim2SF y)) as [[ | | ] | ];
    congruence.
Qed.

Lemma lt_le (x y : float) :
  Number.lt x y = true -> Number.le x y = true.
Proof.
  unfold Number.le, Number.lt. rewrite ltb_spec, leb_spec.
  unfold SFltb, SFleb.
  destruct (SFcompare (Prim2SF x) (Prim2SF y)) as [[ | | ] | ];
    congruence.
Qed.

End NumberFacts.

(** * The gate on a well-formed session state *)

Section GateFacts.

Context `{E : Engine}.

Local Open Scope completion_scope.

Lemma cookie_expired_on_cookie (now : float) (c : json) :
  is_cookie c = true ->
  cookie_expired now c = Normal (expired_at now c).
Proof.
  unfold is_cookie, expired_at, cookie_expired.
  destruct c as [ | b | n | s | items | props]; cbn; try discriminate.
  destruct (own props "expires") as [[ | b | e | s | items | props'] | ];
    cbn; try discriminate; intros _.
  - unfold Number.lt, Number.zero.
    destruct (PrimFloat.ltb 0 e); reflexivity.
  - reflexivity.
Qed.

Lemma array_some_on_cookies (now : float) (cs : list json) :
  forallb is_cookie cs = true ->
  array_some (cookie_expired now) cs = Normal (existsb (expired_at now) cs).
Proof.
  induction cs as [ | c cs IH]; cbn; intros H.
  - reflexivity.
  - apply andb_true_iff in H. destruct H as [Hc Hcs].
    rewrite (cookie_expired_on_cookie now c Hc). cbn.
    destruct (expired_at now c); cbn; [reflexivity | exact (IH Hcs)].
Qed.

Lemma cookies_of_array (state : json) (cs : list json) :
  cookies_of state = Some cs ->
  cookie_array state = Some cs /\ forallb is_cookie cs = true.
Proof.
  unfold cookies_of, cookie_array.
  destruct state as [ | b | n | s | items | props]; try discriminate.
  destruct (own props "cookies") as [[ | b | n | s | items | props'] | ];
    try discriminate.
  destruct (forallb is_cookie items) eqn:Hall; try discriminate.
  intros H. injection H as ->. split; [reflexivity | exact Hall].
Qed.

Lemma check_state_on_session (w : World) (state : json) (cs : list json) :
  cookies_of state = Some cs ->
  check_state w state =
  Normal (negb (Nat.eqb (List.length cs) 0) &&
          negb (existsb (expired_at (check_instant w)) cs)).
Proof.
  intros H. destruct (cookies_of_array state cs H) as [Harr Hall].
  unfold cookie_array in Harr. unfold check_state.
  destruct state as [ | b | n | s | items | props]; try discriminate.
  unfold Get.
  destruct (own props "cookies") as [[ | b | n | s | items | props'] | ];
    try discriminate.
  injection Harr as ->.
  cbn [cbind ToBoolean negb GetLength strict_eq_zero].
  destruct cs as [ | c cs]; [reflexivity | ].
  cbn [List.length Nat.eqb negb andb CallSome].
  rewrite (array_some_on_cookies (check_instant w) (c :: cs) Hall).
  reflexivity.
Qed.

Lemma gate_at_regular (w : World) (raw : string) :
  at_state_path w (Regular raw) ->
  isAuthStateValid w =
  try_catch (state <- parse raw ;; check_state w state)
            (fun _ => Normal false).
Proof.
  unfold at_state_path, isAuthStateValid, fs_existsSync, fs_readFileSync.
  intros ->. reflexivity.
Qed.

Lemma gate_on_session (w : World) (cs : list json) :
  holds_session w cs ->
  isAuthStateValid w =
  Normal (negb (Nat.eqb (List.length cs) 0) &&
          negb (existsb (expired_at (check_instant w)) cs)).
Proof.
  intros (raw & state & Hfile & Hparse & Hcs).
  rewrite (gate_at_regular w raw Hfile).
  unfold parse. rewrite Hparse. cbn.
  rewrite (check_state_on_session w state cs Hcs). reflexivity.
Qed.

Lemma gate_on_nonempty_session (w : World) (cs : list json) :
  holds_session w cs -> cs <> [] ->
  isAuthStateValid w =
  Normal (negb (existsb (expired_at (check_instant w)) cs)).
Proof.
  intros H Hne. rewrite (gate_on_session w cs H).
  destruct cs as [ | c cs]; [now elim Hne | reflexivity].
Qed.

Lemma gate_total (w : World) :
  exists b, isAuthStateValid w = Normal b.
Proof.
  unfold isAuthStateValid.
  destruct (negb (fs_existsSync w (path_resolve AUTH_STATE_PATH))).
  - now exists false.
  - destruct (raw <- fs_readFileSync w (path_resolve AUTH_STATE_PATH) ;;
              state <- parse raw ;; check_state w state) as [b | e]; cbn.
    + now exists b.
    + now exists false.
Qed.

End GateFacts.

(** * Validity of a non-empty session state *)

Section Validity.

Context `{E : Engine}.

(** A cookie record counts as expired exactly when its [expires] is a
    number that is positive and before the check instant. *)
Lemma expired_at_true (now : float) (c : json) :
  expired_at now c = true <->
  exists e, expires_at c e /\ Number.lt Number.zero e = true /\
            Number.lt e now = true.
Proof.
  unfold expired_at, expires_at. split.
  - destruct (cookie_expires c) as [[e | ] | ]; try discriminate.
    intros H. apply andb_true_iff in H. now exists e.
  - intros (e & -> & Hpos & Hlt). now rewrite Hpos, Hlt.
Qed.

Lemma none_expired (now : float) (cs : list json) :
  existsb (expired_at now) cs = false <->
  (forall c e, In c cs -> expires_at c e ->
               Number.lt Number.zero e = true -> Number.lt e now = false).
Proof.
  split.
  - intros Hnone c e Hin He Hpos.
    apply not_true_iff_false. intros Hlt.
    assert (Hex : existsb (expired_at now) cs = true).
    { apply existsb_exists. exists c. split; [exact Hin | ].
      apply expired_at_true. now exists e. }
    congruence.
  - intros Hall. apply not_true_iff_false. intros Hex.
    apply existsb_exists in Hex. destruct Hex as (c & Hin & Hc).
    apply expired_at_true in Hc. destruct Hc as (e & He & Hpos & Hlt).
    rewrite (Hall c e Hin He Hpos) in Hlt. discriminate Hlt.
Qed.

(** The answer on a parsed state with at least one cookie record. *)
Lemma gate_valid_iff (w : World) (cs : list json) :
  holds_session w cs -> cs <> [] ->
  (isAuthStateValid w = Normal true <->
   forall c e, In c cs -> expires_at c e ->
               Number.lt Number.zero e = true ->
               Number.lt e (check_instant w) = false).
Proof.
  intros Hs Hne. rewrite (gate_on_nonempty_session w cs Hs Hne).
  rewrite <- none_expired.
  destruct (existsb (expired_at (check_instant w)) cs); cbn [negb];
    split; congruence.
Qed.

(** C1 (as the code has it): on a parsed session state with at least one
    cookie, the gate answers [true] exactly when every cookie whose
    [expires] is a positive number expires at the check instant or later.
    A cookie without [expires], or with one that is zero or negative,
    puts no condition on the answer. *)
Theorem valid_iff_positive_expiries_not_before_now
    (w : World) (cs : list json) :
  holds_session w cs -> cs <> [] ->
  Number.is_nan (check_instant w) = false ->
  (isAuthStateValid w = Normal true <->
   Forall (fun c => forall e, expires_at c e ->
                              Number.lt Number.zero e = true ->
                              Number.le (check_instant w) e = true) cs).
Proof.
  intros Hs Hne Hnow.
  rewrite (gate_valid_iff w cs Hs Hne), Forall_forall. split.
  - intros H c Hin e He Hpos.
    apply not_lt_le;
      [exact Hnow | exact (lt_not_nan_r _ _ Hpos) | exact (H c e Hin He Hpos)].
  - intros H c e Hin He Hpos. apply le_not_lt. exact (H c Hin e He Hpos).
Qed.

(** C3: a parsed session state with no cookie at all is never valid,
    whatever the check instant. *)
Theorem empty_session_is_invalid (w : World) :
  holds_session w [] -> isAuthStateValid w = Normal false.
Proof.
  intros Hs. rewrite (gate_on_session w [] Hs). reflexivity.
Qed.

(** C4: a cookie that expires exactly at the check instant does not
    invalidate the state; when every cookie of a non-empty parsed state
    expires at the check instant or after it, the gate answers [true]. *)
Theorem valid_when_no_expiry_before_now (w : World) (cs : list json) :
  holds_session w cs -> cs <> [] ->
  Forall (fun c => forall e, expires_at c e ->
                             PrimFloat.eqb e (check_instant w) = true \/
                             Number.lt (check_instant w) e = true) cs ->
  isAuthStateValid w = Normal true.
Proof.
  intros Hs Hne Hall. rewrite Forall_forall in Hall.
  apply (gate_valid_iff w cs Hs Hne). intros c e Hin He _.
  apply le_not_lt.
  destruct (Hall c Hin e He) as [Hsame | Hfuture].
  - apply eq_le. revert Hsame. rewrite !eqb_spec. unfold SFeqb.
    rewrite (SFcompare_swap (Prim2SF e) (Prim2SF (check_instant w))).
    destruct (SFcompare (Prim2SF e) (Prim2SF (check_instant w)))
      as [[ | | ] | ]; cbn; congruence.
  - exact (lt_le _ _ Hfuture).
Qed.

(** C5: when every cookie of a non-empty parsed state expires strictly
    after the check instant, the gate answers [true]. *)
Theorem valid_when_all_expiries_in_future (w : World) (cs : list json) :
  holds_session w cs -> cs <> [] ->
  Forall (fun c => forall e, expires_at c e ->
                             Number.lt (check_instant w) e = true) cs ->
  isAuthStateValid w = Normal true.
Proof.
  intros Hs Hne Hall. rewrite Forall_forall in Hall.
  apply (gate_valid_iff w cs Hs Hne). intros c e Hin He _.
  apply lt_asym. exact (Hall c Hin e He).
Qed.

(** C10: a cookie whose [expires] is zero or negative never makes the
    gate answer [false]: on a parsed state that holds such a cookie, the
    answer is [false] exactly when some other cookie has a positive
    expiry before the check instant. *)
Theorem nonpositive_expires_never_invalidates
    (w : World) (before after : list json) (c : json) (e : float) :
  holds_session w (before ++ c :: after) ->
  expires_at c e -> Number.le e Number.zero = true ->
  (isAuthStateValid w = Normal false <->
   exists c' e', In c' (before ++ after) /\ expires_at c' e' /\
                 Number.lt Number.zero e' = true /\
                 Number.lt e' (check_instant w) = true).
Proof.
  intros Hs He Hle.
  rewrite (gate_on_nonempty_session w _ Hs); [ | now destruct before].
  assert (Hc : expired_at (check_instant w) c = false).
  { unfold expired_at. unfold expires_at in He. rewrite He.
    now rewrite (le_not_lt _ _ Hle). }
  rewrite existsb_app. cbn [existsb]. rewrite Hc, orb_false_l.
  rewrite <- existsb_app.
  destruct (existsb (expired_at (check_instant w)) (before ++ after))
    eqn:Hex; cbn [negb].
  - split; [intros _ | reflexivity].
    apply existsb_exists in Hex. destruct Hex as (c' & Hin & Hc').
    apply expired_at_true in Hc'. destruct Hc' as (e' & He' & Hpos & Hlt).
    now exists c', e'.
  - split; [discriminate | ].
    intros (c' & e' & Hin & He' & Hpos & Hlt).
    rewrite (proj1 (none_expired _ _) Hex c' e' Hin He' Hpos) in Hlt.
    discriminate Hlt.
Qed.

End Validity.

(** * The example worlds hold what they are said to hold *)

Section ExampleFacts.

Lemma sample_holds_session (text : string) (ms : float) (state : json)
    (cs : list json) :
  Sample.parse_text text = Some state ->
  cookies_of state = Some cs ->
  @holds_session Sample.engine (Sample.world_with (Regular text) ms) cs.
Proof.
  intros Hparse Hcs. exists text, state. repeat split; assumption.
Qed.

Lemma boundary_world_holds :
  @holds_session Sample.engine Examples.boundary_world
    [Examples.boundary_cookie].
Proof.
  apply (sample_holds_session _ _ Examples.boundary_state);
    vm_compute; reflexivity.
Qed.

Lemma epoch_world_holds :
  @holds_session Sample.engine Examples.epoch_world [Examples.epoch_cookie].
Proof.
  apply (sample_holds_session _ _ Examples.epoch_state);
    vm_compute; reflexivity.
Qed.

Lemma empty_world_holds :
  @holds_session Sample.engine Examples.empty_world [].
Proof.
  apply (sample_holds_session _ _
           (JObj [("cookies", JArr []); ("origins", JArr [])]));
    vm_compute; reflexivity.
Qed.

Lemma warm_world_holds :
  @holds_session Sample.engine Examples.warm_world
    [Examples.session_cookie; Examples.lasting_cookie].
Proof.
  apply (sample_holds_session _ _ Examples.fresh_state);
    vm_compute; reflexivity.
Qed.

Lemma lasting_world_holds :
  @holds_session Sample.engine Examples.lasting_world
    [Examples.lasting_cookie].
Proof.
  apply (sample_holds_session _ _ Examples.lasting_state);
    vm_compute; reflexivity.
Qed.

End ExampleFacts.

(** ** C1, C3, C4, C5, C10 at the examples *)

Lemma valid_iff_positive_expiries_not_before_now_witness :
  @holds_session Sample.engine Examples.boundary_world
    [Examples.boundary_cookie] /\
  (@isAuthStateValid Sample.engine Examples.boundary_world = Normal true <->
   Forall (fun c => forall e, expires_at c e ->
                              Number.lt Number.zero e = true ->
                              Number.le (check_instant Examples.boundary_world) e
                              = true)
          [Examples.boundary_cookie]).
Proof.
  split; [exact boundary_world_holds | ].
  apply (@valid_iff_positive_expiries_not_before_now Sample.engine
           Examples.boundary_world [Examples.boundary_cookie]).
  - exact boundary_world_holds.
  - discriminate.
  - vm_compute. reflexivity.
Defined.

(** C1, as the specification words it, fails on the code twice over: a
    cookie that expires exactly at the check instant leaves the state
    valid although it is not strictly later, and so does a cookie whose
    [expires] is 0, which is not the sentinel [-1]. *)
Lemma strictly_later_reading_fails :
  (@holds_session Sample.engine Examples.boundary_world
     [Examples.boundary_cookie] /\
   ~ (@isAuthStateValid Sample.engine Examples.boundary_world = Normal true <->
      spec_valid (check_instant Examples.boundary_world)
        [Examples.boundary_cookie])) /\
  (@holds_session Sample.engine Examples.epoch_world [Examples.epoch_cookie] /\
   ~ (@isAuthStateValid Sample.engine Examples.epoch_world = Normal true <->
      spec_valid (check_instant Examples.epoch_world) [Examples.epoch_cookie])).
Proof.
  split; (split; [first [exact boundary_world_holds | exact epoch_world_holds] | ]).
  - intros [H _].
    assert (Hv : @isAuthStateValid Sample.engine Examples.boundary_world
                 = Normal true) by (vm_compute; reflexivity).
    specialize (H Hv). inversion H as [ | c cs Hc _]; subst.
    assert (Hlt : Number.lt (check_instant Examples.boundary_world)
                    1700000000%float = true).
    { apply Hc; vm_compute; reflexivity. }
    vm_compute in Hlt. discriminate Hlt.
  - intros [H _].
    assert (Hv : @isAuthStateValid Sample.engine Examples.epoch_world
                 = Normal true) by (vm_compute; reflexivity).
    specialize (H Hv). inversion H as [ | c cs Hc _]; subst.
    assert (Hlt : Number.lt (check_instant Examples.epoch_world)
                    0%float = true).
    { apply Hc; vm_compute; reflexivity. }
    vm_compute in Hlt. discriminate Hlt.
Qed.

Lemma empty_session_is_invalid_witness :
  @holds_session Sample.engine Examples.empty_world [] /\
  @isAuthStateValid Sample.engine Examples.empty_world = Normal false.
Proof.
  split; [exact empty_world_holds | ].
  apply (@empty_session_is_invalid Sample.engine Examples.empty_world).
  exact empty_world_holds.
Defined.

Lemma valid_when_no_expiry_before_now_witness :
  @isAuthStateValid Sample.engine Examples.boundary_world = Normal true.
Proof.
  apply (@valid_when_no_expiry_before_now Sample.engine
           Examples.boundary_world [Examples.boundary_cookie]).
  - exact boundary_world_holds.
  - discriminate.
  - constructor; [ | constructor].
    intros e He. left. vm_compute in He.
    injection He as <-. vm_compute. reflexivity.
Defined.

Lemma valid_when_all_expiries_in_future_witness :
  @isAuthStateValid Sample.engine Examples.lasting_world = Normal true.
Proof.
  apply (@valid_when_all_expiries_in_future Sample.engine
           Examples.lasting_world [Examples.lasting_cookie]).
  - exact lasting_world_holds.
  - discriminate.
  - constructor; [ | constructor].
    intros e He. vm_compute in He. injection He as <-.
    vm_compute. reflexivity.
Defined.

Lemma nonpositive_expires_never_invalidates_witness :
  (@isAuthStateValid Sample.engine Examples.warm_world = Normal false) <->
  (exists c' e', In c' ([] ++ [Examples.lasting_cookie]) /\
                 expires_at c' e' /\
                 Number.lt Number.zero e' = true /\
                 Number.lt e' (check_instant Examples.warm_world) = true).
Proof.
  apply (@nonpositive_expires_never_invalidates Sample.engine
           Examples.warm_world [] [Examples.lasting_cookie]
           Examples.session_cookie (-1)%float).
  - exact warm_world_holds.
  - vm_compute. reflexivity.
  - vm_compute. reflexivity.
Defined.

(** * A cold cache *)

Section ColdCache.

Context `{E : Engine}.

Local Open Scope completion_scope.

Lemma check_state_without_array (w : World) (state : json) :
  cookie_array state = None ->
  try_catch (check_state w state) (fun _ => Normal false) = Normal false.
Proof.
  unfold cookie_array, check_state, Get.
  destruct state as [ | b | n | s | items | props]; try reflexivity.
  destruct (own props "cookies") as [[ | b | n | s | items | props'] | ];
    try reflexivity; try discriminate; intros _;
    cbn [cbind ToBoolean].
  - destruct b; reflexivity.
  - destruct (negb (negb (PrimFloat.eqb n Number.zero || Number.is_nan n)));
      reflexivity.
  - destruct (negb (negb (String.eqb s EmptyString))); [reflexivity | ].
    cbn [GetLength cbind strict_eq_zero].
    destruct (Nat.eqb (String.length s) 0); reflexivity.
  - cbn [negb GetLength cbind].
    destruct (strict_eq_zero
                match own props' "length" with
                | Some x => LenValue x
                | None => LenUndefined
                end); reflexivity.
Qed.

(** C2 (as the code has it): the gate never raises, whatever is at the
    state path, and it answers [false] when the path has no entry, when
    the entry cannot be read, when its text is not JSON and when the
    parsed value is not an object with a [cookies] array. *)
Theorem cold_cache_is_invalid_and_gate_never_raises (w : World) :
  (exists b, isAuthStateValid w = Normal b) /\
  (cold_cache w -> isAuthStateValid w = Normal false).
Proof.
  split; [exact (gate_total w) | ].
  intros [Hmissing | code Hcode | raw Hraw Hparse | raw state Hraw Hparse Harr].
  - unfold isAuthStateValid, fs_existsSync.
    unfold at_state_path in Hmissing. now rewrite Hmissing.
  - unfold isAuthStateValid, fs_existsSync, fs_readFileSync.
    unfold at_state_path in Hcode. now rewrite Hcode.
  - rewrite (gate_at_regular w raw Hraw). unfold parse.
    now rewrite Hparse.
  - rewrite (gate_at_regular w raw Hraw). unfold parse.
    rewrite Hparse. cbn [cbind].
    exact (check_state_without_array w state Harr).
Qed.

End ColdCache.

Lemma cold_cache_is_invalid_and_gate_never_raises_witness :
  @cold_cache Sample.engine Examples.not_json_world /\
  @isAuthStateValid Sample.engine Examples.not_json_world = Normal false.
Proof.
  assert (Hcold : @cold_cache Sample.engine Examples.not_json_world).
  { apply (@cold_not_json Sample.engine _ "{not json");
      vm_compute; reflexivity. }
  split; [exact Hcold | ].
  exact (proj2 (@cold_cache_is_invalid_and_gate_never_raises Sample.engine
                  Examples.not_json_world) Hcold).
Defined.

(** C2, as the specification words it, fails on the code: a record whose
    [cookies] array holds a number instead of a cookie record, or a cookie
    record whose [expires] is a string, does not parse as a session state,
    and the gate answers [true] on both. *)
Lemma misshapen_record_is_judged_valid :
  (~ @spec_parses_as_session Sample.engine Examples.misshapen_world /\
   @isAuthStateValid Sample.engine Examples.misshapen_world = Normal true) /\
  (~ @spec_parses_as_session Sample.engine Examples.mistyped_world /\
   @isAuthStateValid Sample.engine Examples.mistyped_world = Normal true).
Proof.
  split; (split; [ | vm_compute; reflexivity]);
    intros (cs & raw & state & Hfile & Hparse & Hcs);
    vm_compute in Hfile; injection Hfile as <-;
    vm_compute in Hparse; injection Hparse as <-;
    vm_compute in Hcs; discriminate Hcs.
Qed.

(** * The setup step *)

Section Bootstrap.

Context `{E : Engine}.

Lemma captures_emit (e : event) (w : World) :
  captures (emit e w) = captures w + (if is_capture e then 1 else 0).
Proof.
  unfold captures, emit; cbn [trace].
  rewrite filter_app, length_app. cbn [filter].
  destruct (is_capture e); reflexivity.
Qed.

Lemma setup_when_valid (o : Outside) (w : World) :
  isAuthStateValid w = Normal true ->
  setup_authenticate o w = (Normal tt, emit (Log reuse_message) w).
Proof.
  intros H. unfold setup_authenticate, bind, call. now rewrite H.
Qed.

Lemma setup_when_invalid (o : Outside) (w : World) :
  isAuthStateValid w = Normal false ->
  setup_authenticate o w =
  bind (page_goto o "/") (fun _ => context_storageState o AUTH_STATE_PATH)
       (emit (Log login_message) w).
Proof.
  intros H. unfold setup_authenticate, bind at 1 2, call, console_log.
  now rewrite H.
Qed.

Lemma setup_goto_fails (o : Outside) (w : World) (e : exn) :
  isAuthStateValid w = Normal false ->
  goto_outcome o = Throw e ->
  setup_authenticate o w =
  (Throw e, emit (Goto "/") (emit (Log login_message) w)).
Proof.
  intros Hgate Hgoto. rewrite (setup_when_invalid o w Hgate).
  unfold bind, page_goto. now rewrite Hgoto.
Qed.

Lemma setup_write_fails (o : Outside) (w : World) (s : json) (e : exn)
    (leftover : fs_entry) :
  isAuthStateValid w = Normal false ->
  goto_outcome o = Normal s ->
  write_outcome o = Some (e, leftover) ->
  setup_authenticate o w =
  (Throw e,
   set_file (path_resolve AUTH_STATE_PATH) leftover (after_login s w)).
Proof.
  intros Hgate Hgoto Hwrite. rewrite (setup_when_invalid o w Hgate).
  unfold bind, page_goto, context_storageState.
  now rewrite Hgoto, Hwrite.
Qed.

Lemma setup_write_succeeds (o : Outside) (w : World) (s : json) :
  isAuthStateValid w = Normal false ->
  goto_outcome o = Normal s ->
  write_outcome o = None ->
  setup_authenticate o w =
  (Normal tt,
   set_file (path_resolve AUTH_STATE_PATH)
     (Regular (JSON_stringify (storage (after_login s w))))
     (after_login s w)).
Proof.
  intros Hgate Hgoto Hwrite. rewrite (setup_when_invalid o w Hgate).
  unfold bind, page_goto, context_storageState.
  now rewrite Hgoto, Hwrite.
Qed.

Lemma captures_set_file (p : string) (entry : fs_entry) (w : World) :
  captures (set_file p entry w) = captures w.
Proof. reflexivity. Qed.

Lemma captures_set_storage (s : json) (w : World) :
  captures (set_storage s w) = captures w.
Proof. reflexivity. Qed.

Lemma set_file_changes_only_target (p q : string) (entry : fs_entry)
    (w w0 : World) :
  files w = files w0 ->
  files (set_file p entry w) q <> files w0 q -> q = p.
Proof.
  intros Hsame. unfold set_file; cbn [files]. rewrite Hsame.
  destruct (String.eqb q p) eqn:Heq; intros H;
    [now apply String.eqb_eq | now elim H].
Qed.

(** The file that a capture leaves, read back at any later time. *)
Lemma capture_leaves_session (o : Outside) (w : World) (cs : list json)
    (ms : float) :
  write_outcome o = None ->
  JSON_parse (JSON_stringify (storage w)) = Some (storage w) ->
  cookies_of (storage w) = Some cs ->
  holds_session
    (at_time ms (snd (context_storageState o AUTH_STATE_PATH w))) cs.
Proof.
  intros Hwrite Hround Hcs.
  exists (JSON_stringify (storage w)), (storage w).
  split; [ | split; assumption].
  unfold context_storageState. rewrite Hwrite.
  cbn [snd at_time set_file files emit storage].
  now rewrite String.eqb_refl.
Qed.

(** C6 (as the code has it): after a capture, the gate answers [true] on
    the same path provided the persisted state has at least one cookie
    and every persisted cookie with a positive [expires] expires at the
    check instant or later. *)
Theorem capture_then_gate_is_valid (o : Outside) (w : World)
    (cs : list json) (ms : float) :
  write_outcome o = None ->
  JSON_parse (JSON_stringify (storage w)) = Some (storage w) ->
  cookies_of (storage w) = Some cs -> cs <> [] ->
  let w' := at_time ms (snd (context_storageState o AUTH_STATE_PATH w)) in
  Forall (fun c => forall e, expires_at c e ->
                             Number.lt Number.zero e = true ->
                             Number.le (check_instant w') e = true) cs ->
  isAuthStateValid w' = Normal true.
Proof.
  intros Hwrite Hround Hcs Hne w' Hall. rewrite Forall_forall in Hall.
  assert (Hs : holds_session w' cs)
    by exact (capture_leaves_session o w cs ms Hwrite Hround Hcs).
  apply (gate_valid_iff w' cs Hs Hne). intros c e Hin He Hpos.
  apply le_not_lt. exact (Hall c Hin e He Hpos).
Qed.

(** C7: when the gate reports valid, the step logs one line and does
    nothing else: every file, the state file included, and the browser
    context are as before.  A run writes the state file at most once,
    it writes it only when the gate reports invalid, and a run that
    completes after an invalid report has written it exactly once. *)
Theorem session_file_written_once_only_when_invalid
    (o : Outside) (w : World) :
  let run := setup_authenticate o w in
  (isAuthStateValid w = Normal true ->
     fst run = Normal tt /\
     files (snd run) = files w /\
     storage (snd run) = storage w /\
     trace (snd run) = (trace w ++ [Log reuse_message])%list) /\
  (captures (snd run) = captures w \/ captures (snd run) = S (captures w)) /\
  (captures (snd run) = S (captures w) -> isAuthStateValid w = Normal false) /\
  (forall p, files (snd run) p <> files w p ->
             isAuthStateValid w = Normal false /\
             p = path_resolve AUTH_STATE_PATH) /\
  (isAuthStateValid w = Normal false -> fst run = Normal tt ->
     captures (snd run) = S (captures w) /\
     at_state_path (snd run)
       (Regular (JSON_stringify (storage (snd run))))).
Proof.
  intros run. subst run.
  destruct (gate_total w) as [[ | ] Hgate].
  - rewrite (setup_when_valid o w Hgate). cbn [fst snd].
    rewrite captures_emit. cbn [is_capture emit files storage trace].
    split; [ | split; [ | split; [ | split]]].
    + intros _. repeat split; reflexivity.
    + left. lia.
    + intros Hone. lia.
    + intros p Hp. now elim Hp.
    + intros Hfalse. rewrite Hgate in Hfalse. discriminate Hfalse.
  - destruct (goto_outcome o) as [s | e] eqn:Hgoto;
      [destruct (write_outcome o) as [[e leftover] | ] eqn:Hwrite | ].
    + rewrite (setup_write_fails o w s e leftover Hgate Hgoto Hwrite).
      cbn [fst snd]. rewrite captures_set_file. unfold after_login.
      rewrite captures_emit, captures_set_storage, !captures_emit.
      cbn [is_capture].
      split; [ | split; [ | split; [ | split]]].
      * rewrite Hgate. discriminate.
      * right. lia.
      * intros _. exact Hgate.
      * intros p Hp. split; [exact Hgate | ].
        exact (set_file_changes_only_target _ _ _ _ w eq_refl Hp).
      * intros _ Hok. discriminate Hok.
    + rewrite (setup_write_succeeds o w s Hgate Hgoto Hwrite).
      cbn [fst snd]. rewrite captures_set_file. unfold after_login.
      rewrite captures_emit, captures_set_storage, !captures_emit.
      cbn [is_capture].
      split; [ | split; [ | split; [ | split]]].
      * rewrite Hgate. discriminate.
      * right. lia.
      * intros _. exact Hgate.
      * intros p Hp. split; [exact Hgate | ].
        exact (set_file_changes_only_target _ _ _ _ w eq_refl Hp).
      * intros _ _. split; [lia | ].
        unfold at_state_path, set_file; cbn [files storage].
        now rewrite String.eqb_refl.
    + rewrite (setup_goto_fails o w e Hgate Hgoto).
      cbn [fst snd]. rewrite !captures_emit. cbn [is_capture].
      split; [ | split; [ | split; [ | split]]].
      * rewrite Hgate. discriminate.
      * left. lia.
      * intros Hone. lia.
      * intros p Hp. now elim Hp.
      * intros _ Hok. discriminate Hok.
Qed.

(** C8: when the write of the capture fails, the setup step fails with
    the very error of the write. *)
Theorem capture_failure_is_propagated (o : Outside) (w : World)
    (s : json) (e : exn) (leftover : fs_entry) :
  isAuthStateValid w = Normal false ->
  goto_outcome o = Normal s ->
  write_outcome o = Some (e, leftover) ->
  fst (setup_authenticate o w) = Throw e.
Proof.
  intros Hgate Hgoto Hwrite.
  rewrite (setup_when_invalid o w Hgate).
  unfold bind, page_goto, context_storageState.
  rewrite Hgoto, Hwrite. reflexivity.
Qed.

End Bootstrap.

(** ** C6, C7, C8 at the examples *)

Lemma capture_then_gate_is_valid_witness :
  @isAuthStateValid Sample.engine (Examples.recheck Examples.fresh_state)
  = Normal true.
Proof.
  apply (@capture_then_gate_is_valid Sample.engine
           (Examples.smooth Examples.fresh_state)
           (Examples.logged_in Examples.fresh_state)
           [Examples.session_cookie; Examples.lasting_cookie]
           Examples.t1).
  - reflexivity.
  - vm_compute. reflexivity.
  - vm_compute. reflexivity.
  - discriminate.
  - constructor; [ | constructor; [ | constructor]];
      intros e He Hpos; vm_compute in He; injection He as <-.
    + vm_compute in Hpos. discriminate Hpos.
    + vm_compute. reflexivity.
Defined.

(** C6, as the specification words it, fails on the code: a captured state
    with a session cookie and a cookie that outlives the capture by half a
    millisecond has a cookie without expiry, and one millisecond after the
    capture the gate answers [false] on it. *)
Lemma one_lasting_cookie_is_not_enough :
  @holds_session Sample.engine (Examples.recheck Examples.brief_state)
    [Examples.session_cookie; Examples.brief_cookie] /\
  spec_has_lasting_cookie
    (check_instant (Examples.recheck Examples.brief_state))
    [Examples.session_cookie; Examples.brief_cookie] /\
  @isAuthStateValid Sample.engine (Examples.recheck Examples.brief_state)
  = Normal false.
Proof.
  split; [ | split].
  - exists (Sample.print Examples.brief_state), Examples.brief_state.
    repeat split; vm_compute; reflexivity.
  - exists Examples.session_cookie, (Some (-1)%float).
    split; [now left | ].
    split; [vm_compute; reflexivity | ].
    left. vm_compute. reflexivity.
  - vm_compute. reflexivity.
Qed.

Lemma session_file_written_once_only_when_invalid_witness :
  (@isAuthStateValid Sample.engine Examples.warm_world = Normal true /\
   files (snd (@setup_authenticate Sample.engine
                 (Examples.smooth Examples.fresh_state) Examples.warm_world))
   = files Examples.warm_world) /\
  (@isAuthStateValid Sample.engine Examples.cold_world = Normal false /\
   captures (snd (@setup_authenticate Sample.engine
                    (Examples.smooth Examples.fresh_state)
                    Examples.cold_world))
   = S (captures Examples.cold_world)).
Proof.
  assert (Hwarm : @isAuthStateValid Sample.engine Examples.warm_world
                  = Normal true) by (vm_compute; reflexivity).
  assert (Hcold : @isAuthStateValid Sample.engine Examples.cold_world
                  = Normal false) by (vm_compute; reflexivity).
  split; (split; [assumption | ]).
  - exact (proj1 (proj2 (proj1
             (@session_file_written_once_only_when_invalid Sample.engine
                (Examples.smooth Examples.fresh_state) Examples.warm_world)
             Hwarm))).
  - refine (proj1 (proj2 (proj2 (proj2 (proj2
             (@session_file_written_once_only_when_invalid Sample.engine
                (Examples.smooth Examples.fresh_state) Examples.cold_world))))
             Hcold _)).
    vm_compute. reflexivity.
Defined.

Lemma capture_failure_is_propagated_witness :
  fst (@setup_authenticate Sample.engine
         (Examples.disk_full Examples.fresh_state) Examples.cold_world)
  = Throw (SystemError "ENOSPC").
Proof.
  apply (@capture_failure_is_propagated Sample.engine
           (Examples.disk_full Examples.fresh_state) Examples.cold_world
           Examples.fresh_state (SystemError "ENOSPC") Missing).
  - vm_compute. reflexivity.
  - reflexivity.
  - reflexivity.
Defined.

(** * More on the order of numbers *)

Section NumberOrder.

Ltac compare_cases :=
  repeat match goal with
    | |- context [Z.compare ?a ?b] =>
        destruct (Z.compare_spec a b); subst
    | |- context [Pos.compare_cont Eq ?a ?b] =>
        change (Pos.compare_cont Eq a b) with (Pos.compare a b);
        destruct (Pos.compare_spec a b); subst
    end;
  cbn; intros; try congruence; try (exfalso; lia).

Lemma SFcompare_lt_trans (x y z : spec_float) :
  SFcompare x y = Some Lt ->
  SFcompare y z = Some Lt \/ SFcompare y z = Some Eq ->
  SFcompare x z = Some Lt.
Proof.
  destruct x as [sx | sx | | sx mx ex], y as [sy | sy | | sy my ey],
           z as [sz | sz | | sz mz ez];
    try destruct sx; try destruct sy; try destruct sz; cbn;
    intros H [H' | H']; try discriminate; try reflexivity;
    revert H H'; compare_cases.
Qed.

Lemma lt_le_trans (x y z : float) :
  Number.lt x y = true -> Number.le y z = true -> Number.lt x z = true.
Proof.
  unfold Number.lt, Number.le. rewrite !ltb_spec, leb_spec.
  unfold SFltb, SFleb. intros Hxy Hyz.
  rewrite (SFcompare_lt_trans (Prim2SF x) (Prim2SF y) (Prim2SF z)).
  - reflexivity.
  - destruct (SFcompare (Prim2SF x) (Prim2SF y)) as [[ | | ] | ];
      congruence.
  - destruct (SFcompare (Prim2SF y) (Prim2SF z)) as [[ | | ] | ];
      try discriminate; auto.
Qed.

End NumberOrder.

(** * The gate on any [cookies] array: what decides the answer *)

Section AnyArray.

Context `{E : Engine}.

Local Open Scope completion_scope.

Lemma some_then_negate (f : json -> completion bool) (l : list json) :
  try_catch (h <- array_some f l ;; Normal (negb h)) (fun _ => Normal false)
  = Normal (forallb (fun c => match f c with
                              | Normal false => true
                              | _ => false
                              end) l).
Proof.
  induction l as [ | c l IH]; cbn [array_some forallb].
  - reflexivity.
  - destruct (f c) as [[ | ] | e]; cbn [cbind andb]; try reflexivity.
    exact IH.
Qed.

Lemma check_state_on_array (w : World) (state : json) (c : json)
    (cs : list json) :
  cookie_array state = Some (c :: cs) ->
  try_catch (check_state w state) (fun _ => Normal false)
  = Normal (forallb (entry_passes (check_instant w)) (c :: cs)).
Proof.
  unfold cookie_array, check_state, Get.
  destruct state as [ | b | n | s | items | props]; try discriminate.
  destruct (own props "cookies") as [[ | b | n | s | items | props'] | ];
    try discriminate.
  intros H. injection H as ->.
  cbn [cbind ToBoolean negb GetLength strict_eq_zero List.length Nat.eqb
       CallSome].
  exact (some_then_negate (cookie_expired (check_instant w)) (c :: cs)).
Qed.

Lemma check_state_on_empty_array (w : World) (state : json) :
  cookie_array state = Some [] ->
  try_catch (check_state w state) (fun _ => Normal false) = Normal false.
Proof.
  unfold cookie_array, check_state, Get.
  destruct state as [ | b | n | s | items | props]; try discriminate.
  destruct (own props "cookies") as [[ | b | n | s | items | props'] | ];
    try discriminate.
  intros H. injection H as ->. reflexivity.
Qed.

(** The answer on any [cookies] array: [true] exactly when the array is
    not empty and the callback completes with [false] on every entry. *)
Lemma gate_on_array (w : World) (cs : list json) :
  holds_array w cs ->
  isAuthStateValid w =
  Normal (negb (Nat.eqb (List.length cs) 0) &&
          forallb (entry_passes (check_instant w)) cs).
Proof.
  intros (raw & state & Hfile & Hparse & Harr).
  rewrite (gate_at_regular w raw Hfile). unfold parse. rewrite Hparse.
  cbn [cbind]. destruct cs as [ | c cs].
  - exact (check_state_on_empty_array w state Harr).
  - exact (check_state_on_array w state c cs Harr).
Qed.

Lemma cold_gate_false (w : World) :
  cold_cache w -> isAuthStateValid w = Normal false.
Proof.
  intros [Hmissing | code Hcode | raw Hraw Hparse | raw state Hraw Hparse Harr].
  - unfold isAuthStateValid, fs_existsSync.
    unfold at_state_path in Hmissing. now rewrite Hmissing.
  - unfold isAuthStateValid, fs_existsSync, fs_readFileSync.
    unfold at_state_path in Hcode. now rewrite Hcode.
  - rewrite (gate_at_regular w raw Hraw). unfold parse. now rewrite Hparse.
  - rewrite (gate_at_regular w raw Hraw). unfold parse. rewrite Hparse.
    cbn [cbind]. exact (check_state_without_array w state Harr).
Qed.

(** The gate answers [true] only on such an array. *)
Lemma valid_has_array (w : World) :
  isAuthStateValid w = Normal true ->
  exists cs, holds_array w cs /\ cs <> [] /\
             forallb (entry_passes (check_instant w)) cs = true.
Proof.
  intros Hvalid.
  destruct (files w (path_resolve AUTH_STATE_PATH)) as [ | code | raw] eqn:Hfile.
  - rewrite (cold_gate_false w (cold_missing w Hfile)) in Hvalid.
    discriminate Hvalid.
  - rewrite (cold_gate_false w (cold_unreadable w code Hfile))
      in Hvalid.
    discriminate Hvalid.
  - destruct (JSON_parse raw) as [state | ] eqn:Hparse.
    + destruct (cookie_array state) as [cs | ] eqn:Harr.
      * assert (Hs : holds_array w cs) by (now exists raw, state).
        exists cs. split; [exact Hs | ].
        rewrite (gate_on_array w cs Hs) in Hvalid.
        injection Hvalid as Hvalid. apply andb_true_iff in Hvalid.
        destruct Hvalid as [Hne Hall]. split; [ | exact Hall].
        intros ->. discriminate Hne.
      * rewrite (cold_gate_false w
                   (cold_no_cookie_array w raw state Hfile Hparse Harr))
          in Hvalid.
        discriminate Hvalid.
    + rewrite (cold_gate_false w (cold_not_json w raw Hfile Hparse))
        in Hvalid.
      discriminate Hvalid.
Qed.

End AnyArray.

(** * What the answer of the gate does and does not depend on *)

Section GateInvariants.

Context `{E : Engine}.

Local Open Scope completion_scope.

Lemma session_is_array (w : World) (cs : list json) :
  holds_session w cs -> holds_array w cs.
Proof.
  intros (raw & state & Hfile & Hparse & Hcs).
  exists raw, state. repeat split; try assumption.
  exact (proj1 (cookies_of_array state cs Hcs)).
Qed.

Lemma null_entry_fails (now : float) : entry_passes now JNull = false.
Proof. reflexivity. Qed.

(** X1: a [cookies] array that holds [null] is never valid, whatever its
    other entries are: reading [expires] off [null] throws inside [some]
    and the [catch] turns that into [false]. *)
Theorem null_entry_invalidates (w : World) (cs : list json) :
  holds_array w cs -> In JNull cs -> isAuthStateValid w = Normal false.
Proof.
  intros Hs Hin. rewrite (gate_on_array w cs Hs).
  replace (forallb (entry_passes (check_instant w)) cs) with false;
    [now rewrite andb_false_r | ].
  symmetry. apply not_true_iff_false. intros Hall.
  rewrite forallb_forall in Hall. specialize (Hall JNull Hin).
  rewrite null_entry_fails in Hall. discriminate Hall.
Qed.

Lemma entry_passes_earlier (now later : float) (c : json) :
  Number.le now later = true ->
  entry_passes later c = true -> entry_passes now c = true.
Proof.
  intros Hle. unfold entry_passes, cookie_expired.
  destruct (Get (Val c) "expires") as [x | e]; cbn [cbind]; [ | discriminate].
  unfold greater_than_number, less_than_number.
  destruct (ToNumber x) as [n | e]; cbn [cbind]; [ | discriminate].
  destruct (Number.lt Number.zero n); [ | reflexivity].
  destruct (Number.lt n later) eqn:Hlater; [discriminate | intros _].
  destruct (Number.lt n now) eqn:Hnow; [ | reflexivity].
  rewrite (lt_le_trans n now later Hnow Hle) in Hlater. discriminate Hlater.
Qed.

(** X2: time only takes validity away.  For one and the same content of
    the state path, whatever it is, an answer [true] at some check
    instant means an answer [true] at every earlier one. *)
Theorem validity_is_not_regained (w w' : World) :
  files w' = files w ->
  Number.le (check_instant w) (check_instant w') = true ->
  isAuthStateValid w' = Normal true -> isAuthStateValid w = Normal true.
Proof.
  intros Hfiles Hle Hvalid.
  destruct (valid_has_array w' Hvalid)
    as (cs & (raw & state & Hfile & Hparse & Harr) & Hne & Hall).
  assert (Hs : holds_array w cs).
  { exists raw, state. unfold at_state_path in *.
    rewrite <- Hfiles. repeat split; assumption. }
  rewrite (gate_on_array w cs Hs).
  destruct cs as [ | c cs]; [now elim Hne | ].
  cbn [List.length Nat.eqb negb andb]. f_equal.
  rewrite forallb_forall in Hall. apply forallb_forall.
  intros x Hx. exact (entry_passes_earlier _ _ x Hle (Hall x Hx)).
Qed.

(** X3: entries can only take validity away.  When a state is valid, so
    is, at the same instant, every state whose [cookies] array is not
    empty and holds entries of the first one only. *)
Theorem validity_survives_dropping_entries
    (w w' : World) (cs cs' : list json) :
  holds_array w cs -> holds_array w' cs' ->
  check_instant w' = check_instant w ->
  incl cs' cs -> cs' <> [] ->
  isAuthStateValid w = Normal true -> isAuthStateValid w' = Normal true.
Proof.
  intros Hs Hs' Hnow Hincl Hne.
  rewrite (gate_on_array w cs Hs), (gate_on_array w' cs' Hs'), Hnow.
  intros Hvalid. injection Hvalid as Hvalid.
  apply andb_true_iff in Hvalid. destruct Hvalid as [_ Hall].
  destruct cs' as [ | c cs']; [now elim Hne | ].
  cbn [List.length Nat.eqb negb andb]. f_equal.
  rewrite forallb_forall in Hall. apply forallb_forall.
  intros x Hx. exact (Hall x (Hincl x Hx)).
Qed.

Lemma forallb_permutation (f : json -> bool) (l l' : list json) :
  Permutation l l' -> forallb f l = forallb f l'.
Proof.
  induction 1 as [ | x l l' _ IH | x y l | l l' l'' _ IH1 _ IH2];
    cbn [forallb].
  - reflexivity.
  - now rewrite IH.
  - now rewrite !andb_assoc, (andb_comm (f y) (f x)).
  - now rewrite IH1.
Qed.

(** X4: the order of the entries of [cookies] does not matter, although
    [some] stops at the first expired entry and a later entry may be one
    that throws. *)
Theorem order_of_entries_is_irrelevant (w w' : World) (cs cs' : list json) :
  holds_array w cs -> holds_array w' cs' ->
  check_instant w' = check_instant w ->
  Permutation cs cs' ->
  isAuthStateValid w' = isAuthStateValid w.
Proof.
  intros Hs Hs' Hnow Hperm.
  rewrite (gate_on_array w cs Hs), (gate_on_array w' cs' Hs'), Hnow.
  rewrite (Permutation_length Hperm).
  now rewrite (forallb_permutation _ cs cs' Hperm).
Qed.

Lemma existsb_expired_by_expires (now : float) (cs cs' : list json) :
  map cookie_expires cs = map cookie_expires cs' ->
  existsb (expired_at now) cs = existsb (expired_at now) cs'.
Proof.
  revert cs'. induction cs as [ | c cs IH]; intros [ | c' cs'] H;
    try discriminate H; [reflexivity | ].
  cbn [map] in H. injection H as Hc Hcs. cbn [existsb].
  rewrite (IH cs' Hcs). unfold expired_at. now rewrite Hc.
Qed.

(** X5: of a parsed session state, the gate looks at nothing but the
    sequence of [expires] fields: names, values, domains, paths and the
    [origins] have no influence on the answer. *)
Theorem answer_depends_on_expires_only (w w' : World) (cs cs' : list json) :
  holds_session w cs -> holds_session w' cs' ->
  check_instant w' = check_instant w ->
  map cookie_expires cs = map cookie_expires cs' ->
  isAuthStateValid w' = isAuthStateValid w.
Proof.
  intros Hs Hs' Hnow Hmap.
  rewrite (gate_on_session w cs Hs), (gate_on_session w' cs' Hs'), Hnow.
  rewrite (existsb_expired_by_expires _ cs cs' Hmap).
  now rewrite <- (length_map cookie_expires cs),
              <- (length_map cookie_expires cs'), Hmap.
Qed.

End GateInvariants.

(** * One run after another *)

Section ConsecutiveRuns.

Context `{E : Engine}.

(** What a completed run leaves at the state path after an invalid
    report. *)
Lemma first_run_leaves_session (o : Outside) (w : World) (s : json)
    (cs : list json) (ms : float) :
  isAuthStateValid w = Normal false ->
  goto_outcome o = Normal s -> write_outcome o = None ->
  JSON_parse (JSON_stringify s) = Some s ->
  cookies_of s = Some cs ->
  holds_session (at_time ms (snd (setup_authenticate o w))) cs.
Proof.
  intros Hgate Hgoto Hwrite Hround Hcs.
  rewrite (setup_write_succeeds o w s Hgate Hgoto Hwrite).
  exists (JSON_stringify s), s. split; [ | split; assumption].
  cbn [snd at_time set_file files].
  now rewrite String.eqb_refl.
Qed.

(** X6: the cache works from one run to the next.  After a run that found
    the cache invalid, logged in and captured a state with at least one
    cookie, a second run at an instant at which no positive expiry of
    that state has passed reuses the file: it completes, writes nothing,
    leaves every file as it is and only logs the reuse. *)
Theorem second_run_reuses_capture (o o' : Outside) (w : World) (s : json)
    (cs : list json) (ms : float) :
  isAuthStateValid w = Normal false ->
  goto_outcome o = Normal s -> write_outcome o = None ->
  JSON_parse (JSON_stringify s) = Some s ->
  cookies_of s = Some cs -> cs <> [] ->
  let w1 := at_time ms (snd (setup_authenticate o w)) in
  Forall (fun c => forall e, expires_at c e ->
                             Number.lt Number.zero e = true ->
                             Number.le (check_instant w1) e = true) cs ->
  setup_authenticate o' w1 = (Normal tt, emit (Log reuse_message) w1) /\
  files (snd (setup_authenticate o' w1)) = files w1 /\
  captures (snd (setup_authenticate o' w1)) = captures w1.
Proof.
  intros Hgate Hgoto Hwrite Hround Hcs Hne w1 Hall.
  assert (Hs : holds_session w1 cs)
    by exact (first_run_leaves_session o w s cs ms Hgate Hgoto Hwrite
                Hround Hcs).
  assert (Hvalid : isAuthStateValid w1 = Normal true).
  { apply (gate_valid_iff w1 cs Hs Hne). rewrite Forall_forall in Hall.
    intros c e Hin He Hpos. apply le_not_lt. exact (Hall c Hin e He Hpos). }
  rewrite (setup_when_valid o' w1 Hvalid). cbn [snd].
  repeat split. rewrite captures_emit. cbn [is_capture]. lia.
Qed.

Lemma invalid_run_logs_in (o : Outside) (w : World) :
  isAuthStateValid w = Normal false ->
  exists rest,
    trace (snd (setup_authenticate o w))
    = (trace w ++ Log login_message :: Goto "/" :: rest)%list.
Proof.
  intros Hgate.
  destruct (goto_outcome o) as [s | e] eqn:Hgoto;
    [destruct (write_outcome o) as [[e leftover] | ] eqn:Hwrite | ].
  - rewrite (setup_write_fails o w s e leftover Hgate Hgoto Hwrite).
    exists [StorageState AUTH_STATE_PATH].
    cbn [snd set_file after_login emit set_storage trace].
    now rewrite <- !app_assoc.
  - rewrite (setup_write_succeeds o w s Hgate Hgoto Hwrite).
    exists [StorageState AUTH_STATE_PATH].
    cbn [snd set_file after_login emit set_storage trace].
    now rewrite <- !app_assoc.
  - rewrite (setup_goto_fails o w e Hgate Hgoto). exists [].
    cbn [snd emit trace]. now rewrite <- !app_assoc.
Qed.

(** X7: a login that leaves no cookie defeats the cache.  After a run
    that captured a state whose [cookies] array is empty, the gate reports
    invalid at every later instant, and the next run logs in again. *)
Theorem cookieless_capture_is_never_reused (o o' : Outside) (w : World)
    (s : json) (ms : float) :
  isAuthStateValid w = Normal false ->
  goto_outcome o = Normal s -> write_outcome o = None ->
  JSON_parse (JSON_stringify s) = Some s ->
  cookie_array s = Some [] ->
  let w1 := at_time ms (snd (setup_authenticate o w)) in
  isAuthStateValid w1 = Normal false /\
  exists rest,
    trace (snd (setup_authenticate o' w1))
    = (trace w1 ++ Log login_message :: Goto "/" :: rest)%list.
Proof.
  intros Hgate Hgoto Hwrite Hround Harr w1.
  assert (Hs : holds_array w1 []).
  { subst w1. rewrite (setup_write_succeeds o w s Hgate Hgoto Hwrite).
    exists (JSON_stringify s), s. split; [ | split; assumption].
    unfold at_state_path. cbn [snd at_time set_file files].
    now rewrite String.eqb_refl. }
  assert (Hinvalid : isAuthStateValid w1 = Normal false)
    by (rewrite (gate_on_array w1 [] Hs); reflexivity).
  split; [exact Hinvalid | exact (invalid_run_logs_in o' w1 Hinvalid)].
Qed.


End ConsecutiveRuns.

(** ** The gate and the runs at the examples *)

Lemma null_entry_world_holds :
  @holds_array Sample.engine MoreExamples.null_entry_world
    [JObj [("name", JStr "theme"); ("expires", JNum (-1)%float)]; JNull].
Proof.
  eexists _, _. repeat split; vm_compute; reflexivity.
Qed.

Lemma swapped_world_holds :
  @holds_session Sample.engine MoreExamples.swapped_world
    [Examples.lasting_cookie; Examples.session_cookie].
Proof.
  apply (sample_holds_session _ _ MoreExamples.swapped_state);
    vm_compute; reflexivity.
Qed.

Lemma renamed_world_holds :
  @holds_session Sample.engine MoreExamples.renamed_world
    MoreExamples.renamed_cookies.
Proof.
  apply (sample_holds_session _ _ MoreExamples.renamed_state);
    vm_compute; reflexivity.
Qed.

Lemma null_entry_invalidates_witness :
  @isAuthStateValid Sample.engine MoreExamples.null_entry_world = Normal false.
Proof.
  apply (@null_entry_invalidates Sample.engine MoreExamples.null_entry_world
           [JObj [("name", JStr "theme"); ("expires", JNum (-1)%float)]; JNull]).
  - exact null_entry_world_holds.
  - right. left. reflexivity.
Defined.

Lemma validity_is_not_regained_witness :
  @isAuthStateValid Sample.engine (Examples.captured Examples.fresh_state)
  = Normal true.
Proof.
  apply (@validity_is_not_regained Sample.engine
           (Examples.captured Examples.fresh_state)
           (Examples.recheck Examples.fresh_state)).
  - reflexivity.
  - vm_compute. reflexivity.
  - vm_compute. reflexivity.
Defined.

Lemma validity_survives_dropping_entries_witness :
  @isAuthStateValid Sample.engine Examples.lasting_world = Normal true.
Proof.
  apply (@validity_survives_dropping_entries Sample.engine
           Examples.warm_world Examples.lasting_world
           [Examples.session_cookie; Examples.lasting_cookie]
           [Examples.lasting_cookie]).
  - exact (@session_is_array Sample.engine _ _ warm_world_holds).
  - exact (@session_is_array Sample.engine _ _ lasting_world_holds).
  - reflexivity.
  - intros c [<- | []]. right. left. reflexivity.
  - discriminate.
  - vm_compute. reflexivity.
Defined.

Lemma order_of_entries_is_irrelevant_witness :
  @isAuthStateValid Sample.engine MoreExamples.swapped_world
  = @isAuthStateValid Sample.engine Examples.warm_world.
Proof.
  apply (@order_of_entries_is_irrelevant Sample.engine
           Examples.warm_world MoreExamples.swapped_world
           [Examples.session_cookie; Examples.lasting_cookie]
           [Examples.lasting_cookie; Examples.session_cookie]).
  - exact (@session_is_array Sample.engine _ _ warm_world_holds).
  - exact (@session_is_array Sample.engine _ _ swapped_world_holds).
  - reflexivity.
  - apply perm_swap.
Defined.

Lemma answer_depends_on_expires_only_witness :
  @isAuthStateValid Sample.engine MoreExamples.renamed_world
  = @isAuthStateValid Sample.engine Examples.warm_world.
Proof.
  apply (@answer_depends_on_expires_only Sample.engine
           Examples.warm_world MoreExamples.renamed_world
           [Examples.session_cookie; Examples.lasting_cookie]
           MoreExamples.renamed_cookies).
  - exact warm_world_holds.
  - exact renamed_world_holds.
  - reflexivity.
  - vm_compute. reflexivity.
Defined.

Lemma second_run_reuses_capture_witness :
  captures (snd (@setup_authenticate Sample.engine
                   (Examples.smooth Examples.fresh_state)
                   (MoreExamples.after_first_run Examples.fresh_state
                      Examples.t1)))
  = captures (MoreExamples.after_first_run Examples.fresh_state Examples.t1).
Proof.
  refine (proj2 (proj2
    (@second_run_reuses_capture Sample.engine
       (Examples.smooth Examples.fresh_state)
       (Examples.smooth Examples.fresh_state)
       Examples.cold_world Examples.fresh_state
       [Examples.session_cookie; Examples.lasting_cookie] Examples.t1
       _ _ _ _ _ _ _))).
  - vm_compute. reflexivity.
  - reflexivity.
  - reflexivity.
  - vm_compute. reflexivity.
  - vm_compute. reflexivity.
  - discriminate.
  - constructor; [ | constructor; [ | constructor]];
      intros e He Hpos; vm_compute in He; injection He as <-.
    + vm_compute in Hpos. discriminate Hpos.
    + vm_compute. reflexivity.
Defined.

Lemma cookieless_capture_is_never_reused_witness :
  @isAuthStateValid Sample.engine
    (MoreExamples.after_first_run MoreExamples.bare_state Examples.t1)
  = Normal false.
Proof.
  refine (proj1
    (@cookieless_capture_is_never_reused Sample.engine
       (Examples.smooth MoreExamples.bare_state)
       (Examples.smooth MoreExamples.bare_state)
       Examples.cold_world MoreExamples.bare_state Examples.t1
       _ _ _ _ _)).
  - vm_compute. reflexivity.
  - reflexivity.
  - reflexivity.
  - vm_compute. reflexivity.
  - reflexivity.
Defined.


(** * Strings *)

Section StringFacts.

Lemma append_assoc (a b c : string) : (a ++ b) ++ c = a ++ (b ++ c).
Proof. induction a as [ | x a IH]; cbn; [reflexivity | now rewrite IH]. Qed.

Lemma append_nil_r (a : string) : a ++ EmptyString = a.
Proof. induction a as [ | x a IH]; cbn; [reflexivity | now rewrite IH]. Qed.

Lemma length_append (a b : string) :
  String.length (a ++ b) = String.length a + String.length b.
Proof. induction a as [ | x a IH]; cbn; [reflexivity | now rewrite IH]. Qed.


Lemma append_not_shorter (a b : string) : a ++ b = a -> b = EmptyString.
Proof.
  intros H. apply (f_equal String.length) in H. rewrite length_append in H.
  destruct b; [reflexivity | cbn in H; lia].
Qed.

Lemma all_chars_append (p : ascii -> bool) (a b : string) :
  Url.all_chars p (a ++ b) = Url.all_chars p a && Url.all_chars p b.
Proof.
  induction a as [ | x a IH]; cbn; [reflexivity | ].
  now rewrite IH, andb_assoc.
Qed.

Lemma occurrences_append (c : ascii) (a b : string) :
  Url.occurrences c (a ++ b) = Url.occurrences c a + Url.occurrences c b.
Proof.
  induction a as [ | x a IH]; cbn; [reflexivity | ]. rewrite IH. lia.
Qed.

End StringFacts.

(** * [buildUrl] *)

Section UrlFacts.

Import Url.

Lemma nat_of_ascii_bound (c : ascii) : nat_of_ascii c < 256.
Proof.
  destruct c as [[ | ] [ | ] [ | ] [ | ] [ | ] [ | ] [ | ] [ | ]];
    vm_compute; repeat constructor.
Qed.

Lemma hex_digit_unreserved (k : nat) : k < 16 -> unreserved (hex_digit k) = true.
Proof.
  intros H. do 16 (destruct k as [ | k]; [reflexivity | ]). lia.
Qed.


(** The shapes of an encoded byte. *)
Lemma encode_byte_cases (c : ascii) :
  (unreserved c = true /\ encode_byte c = String c EmptyString) \/
  (c = " "%char /\ encode_byte c = "+") \/
  (unreserved c = false /\
   encode_byte c =
   String "%"%char
     (String (hex_digit (nat_of_ascii c / 16))
        (String (hex_digit (nat_of_ascii c mod 16)) EmptyString))).
Proof.
  unfold encode_byte. destruct (unreserved c) eqn:Hu; [now left | right].
  destruct (Ascii.eqb c " "%char) eqn:Hs.
  - left. apply Ascii.eqb_eq in Hs. now split.
  - right. now split.
Qed.

Lemma encode_byte_chars (c : ascii) :
  all_chars encoded_char (encode_byte c) = true.
Proof.
  pose proof (nat_of_ascii_bound c) as Hc.
  destruct (encode_byte_cases c) as [[Hu ->] | [[-> ->] | [Hu ->]]].
  - cbn. unfold encoded_char. now rewrite Hu.
  - reflexivity.
  - cbn [all_chars]. unfold encoded_char.
    rewrite !hex_digit_unreserved;
      [reflexivity | apply Nat.mod_upper_bound; lia
      | apply Nat.Div0.div_lt_upper_bound; lia].
Qed.

Lemma urlencode_chars (s : string) :
  all_chars encoded_char (urlencode s) = true.
Proof.
  induction s as [ | c s IH]; cbn [urlencode]; [reflexivity | ].
  now rewrite all_chars_append, encode_byte_chars, IH.
Qed.

Lemma all_chars_weaken (p q : ascii -> bool) (s : string) :
  (forall c, p c = true -> q c = true) ->
  all_chars p s = true -> all_chars q s = true.
Proof.
  intros Hpq. induction s as [ | c s IH]; cbn; [reflexivity | ].
  intros H. apply andb_true_iff in H. destruct H as [Hc Hs].
  now rewrite (Hpq c Hc), (IH Hs).
Qed.

Lemma all_chars_no_occurrence (p : ascii -> bool) (d : ascii) (s : string) :
  p d = false -> all_chars p s = true -> occurrences d s = 0.
Proof.
  intros Hd. induction s as [ | c s IH]; cbn; [reflexivity | ].
  intros H. apply andb_true_iff in H. destruct H as [Hc Hs].
  rewrite (IH Hs). destruct (Ascii.eqb_spec d c) as [-> | _]; [ | reflexivity].
  congruence.
Qed.

Lemma urlencode_no_delimiter (d : ascii) (s : string) :
  d = "="%char \/ d = "&"%char -> occurrences d (urlencode s) = 0.
Proof.
  intros Hd.
  apply (all_chars_no_occurrence encoded_char d (urlencode s));
    [ | apply urlencode_chars].
  destruct Hd as [-> | ->]; reflexivity.
Qed.

Lemma pair_not_empty (n v : string) :
  exists c r, urlencode n ++ "=" ++ urlencode v = String c r.
Proof.
  destruct (urlencode n) as [ | c r]; cbn; eauto.
Qed.

Lemma fold_serialize (ps : list (string * string)) (c : ascii) (acc : string) :
  fold_left serialize_step ps (String c acc) =
  String c acc ++
  match ps with
  | [] => EmptyString
  | _ :: _ => "&" ++ serialize ps
  end.
Proof.
  revert c acc. induction ps as [ | [n v] ps IH]; intros c acc.
  - cbn. now rewrite append_nil_r.
  - unfold serialize. cbn [fold_left]. unfold serialize_step at 2 4.
    cbn [fst snd]. destruct (pair_not_empty n v) as (x & r & Hpair).
    change (EmptyString ++ urlencode n ++ "=" ++ urlencode v)
      with (urlencode n ++ "=" ++ urlencode v).
    rewrite Hpair.
    change ((String c acc ++ "&") ++ String x r)
      with (String c ((acc ++ "&") ++ String x r)).
    rewrite !IH. cbn [append]. f_equal.
    rewrite !append_assoc. reflexivity.
Qed.

(** The query string of a non-empty record, pair by pair. *)
Lemma serialize_cons (n v : string) (ps : list (string * string)) :
  serialize ((n, v) :: ps) =
  urlencode n ++ "=" ++ urlencode v ++
  match ps with
  | [] => EmptyString
  | _ :: _ => "&" ++ serialize ps
  end.
Proof.
  unfold serialize at 1. cbn [fold_left]. unfold serialize_step at 2.
  cbn [fst snd]. destruct (pair_not_empty n v) as (x & r & Hpair).
  change (EmptyString ++ urlencode n ++ "=" ++ urlencode v)
    with (urlencode n ++ "=" ++ urlencode v).
  rewrite Hpair, fold_serialize, <- Hpair.
  now rewrite !append_assoc.
Qed.

End UrlFacts.

Section UrlProperties.

Import Url.

Lemma serialize_not_empty (p : string * string) (ps : list (string * string)) :
  exists c r, serialize (p :: ps) = String c r.
Proof.
  destruct p as [n v]. rewrite serialize_cons.
  destruct (pair_not_empty n v) as (c & r & H).
  rewrite <- append_assoc, <- (append_assoc (urlencode n ++ "=")).
  rewrite (append_assoc (urlencode n)), H. cbn. eauto.
Qed.

Lemma buildUrl_with_params (path : string) (p : string * string)
    (ps : list (string * string)) :
  buildUrl path (p :: ps) = path ++ "?" ++ serialize (p :: ps).
Proof.
  destruct (serialize_not_empty p ps) as (c & r & Hq).
  unfold buildUrl. now rewrite Hq.
Qed.

Lemma buildUrl_with_params_differs (path : string) (p : string * string)
    (ps : list (string * string)) :
  buildUrl path (p :: ps) <> path.
Proof.
  rewrite buildUrl_with_params. intros H.
  apply append_not_shorter in H. discriminate H.
Qed.

(** X9: [buildUrl] gives the path back unchanged exactly when the record
    of parameters is empty; with a parameter the URL is the path, a [?]
    and the query string. *)
Theorem buildUrl_keeps_path_iff_no_params
    (path : string) (params : list (string * string)) :
  (buildUrl path params = path <-> params = []) /\
  (params <> [] -> buildUrl path params = path ++ "?" ++ serialize params).
Proof.
  destruct params as [ | p ps].
  - split; [now split | intros H; now elim H].
  - split; [ | intros _; apply buildUrl_with_params].
    split; [ | discriminate].
    intros H. now elim (buildUrl_with_params_differs path p ps).
Qed.

Lemma serialize_chars (ps : list (string * string)) :
  all_chars query_char (serialize ps) = true.
Proof.
  assert (Henc : forall s, all_chars query_char (urlencode s) = true).
  { intros s. apply (all_chars_weaken encoded_char); [ | apply urlencode_chars].
    intros c Hc. unfold query_char. fold (encoded_char c). now rewrite Hc. }
  induction ps as [ | [n v] ps IH]; [reflexivity | ].
  rewrite serialize_cons, !all_chars_append, !Henc.
  destruct ps as [ | q qs]; [reflexivity | ].
  rewrite all_chars_append, IH. reflexivity.
Qed.

Lemma serialize_delimiters (ps : list (string * string)) :
  occurrences "="%char (serialize ps) = List.length ps /\
  occurrences "&"%char (serialize ps) = pred (List.length ps).
Proof.
  induction ps as [ | [n v] ps [IHeq IHamp]]; [now split | ].
  rewrite serialize_cons, !occurrences_append.
  rewrite !(urlencode_no_delimiter "="%char) by now left.
  rewrite !(urlencode_no_delimiter "&"%char) by now right.
  destruct ps as [ | q qs]; [now split | ].
  rewrite !occurrences_append, IHeq, IHamp. cbn. split; lia.
Qed.

(** X10: names and values cannot break out of the query string.  Whatever
    bytes they hold, the query string is made of letters, digits,
    [* - . _ + %] and the delimiters only, with exactly one [=] per
    parameter and one [&] between two parameters. *)
Theorem query_string_is_well_delimited (params : list (string * string)) :
  all_chars query_char (serialize params) = true /\
  occurrences "="%char (serialize params) = List.length params /\
  occurrences "&"%char (serialize params) = pred (List.length params).
Proof.
  split; [apply serialize_chars | apply serialize_delimiters].
Qed.







End UrlProperties.

(** * The environment helpers *)

Section EnvFacts.

Import Env.

Lemma truthy_some (v : option string) :
  truthy v = true <-> exists s, v = Some s /\ s <> EmptyString.
Proof.
  split.
  - destruct v as [[ | c r] | ]; try discriminate.
    intros _. exists (String c r). split; [reflexivity | discriminate].
  - intros (s & -> & Hs). destruct s; [now elim Hs | reflexivity].
Qed.

Lemma or_else_truthy (v : option string) (fallback s : string) :
  v = Some s -> s <> EmptyString -> or_else v fallback = s.
Proof. intros -> Hs. destruct s; [now elim Hs | reflexivity]. Qed.

Lemma or_else_falsy (v : option string) (fallback : string) :
  truthy v = false -> or_else v fallback = fallback.
Proof. destruct v as [[ | c r] | ]; try discriminate; reflexivity. Qed.

Lemma or_else_not_empty (v : option string) (fallback : string) :
  fallback <> EmptyString -> or_else v fallback <> EmptyString.
Proof.
  intros Hf. destruct v as [[ | c r] | ]; cbn; try assumption. discriminate.
Qed.

(** The two helpers with a fixed variable, as one. *)
Lemma fixed_helper (env : environment) (name fallback : string) :
  fallback <> EmptyString ->
  let result := (or_else (env name) fallback,
                 warnIfMissing env name fallback) in
  fst result <> EmptyString /\
  (snd result = [] <-> truthy (env name) = true) /\
  (forall v, env name = Some v -> v <> EmptyString -> result = (v, [])) /\
  (truthy (env name) = false ->
   fst result = fallback /\ List.length (snd result) = 1).
Proof.
  intros Hf result. subst result. cbn [fst snd]. unfold warnIfMissing.
  split; [exact (or_else_not_empty _ _ Hf) | ].
  destruct (truthy (env name)) eqn:Ht; cbn [negb].
  - split; [now split | ].
    split; [ | discriminate].
    intros v Hv Hne. now rewrite (or_else_truthy _ _ v Hv Hne).
  - split; [split; discriminate | ].
    split.
    + intros v Hv Hne. exfalso.
      assert (truthy (env name) = true) by (apply truthy_some; eauto).
      congruence.
    + intros _. now rewrite (or_else_falsy _ _ Ht).
Qed.

(** X12: [getBaseUrl] and [getApiBaseUrl] never return the empty string;
    they return the variable whenever it is set and not empty, and they
    warn, once, exactly when they fall back to the default. *)
Theorem base_urls_fall_back_with_a_warning (env : environment) :
  (fst (getBaseUrl env) <> EmptyString /\
   (snd (getBaseUrl env) = [] <-> truthy (env "BASE_URL") = true) /\
   (forall v, env "BASE_URL" = Some v -> v <> EmptyString ->
              getBaseUrl env = (v, [])) /\
   (truthy (env "BASE_URL") = false ->
    fst (getBaseUrl env) = "https://example.com" /\
    List.length (snd (getBaseUrl env)) = 1)) /\
  (fst (getApiBaseUrl env) <> EmptyString /\
   (snd (getApiBaseUrl env) = [] <-> truthy (env "API_BASE_URL") = true) /\
   (forall v, env "API_BASE_URL" = Some v -> v <> EmptyString ->
              getApiBaseUrl env = (v, [])) /\
   (truthy (env "API_BASE_URL") = false ->
    fst (getApiBaseUrl env) = "https://api.example.com" /\
    List.length (snd (getApiBaseUrl env)) = 1)).
Proof.
  split.
  - apply (fixed_helper env "BASE_URL" "https://example.com"). discriminate.
  - apply (fixed_helper env "API_BASE_URL" "https://api.example.com").
    discriminate.
Qed.

Lemma getEnvVar_value (env : environment) (name fallback : string) :
  fst (getEnvVar env name fallback) = or_else (env name) fallback.
Proof.
  unfold getEnvVar. destruct (env name) as [[ | c r] | ]; reflexivity.
Qed.

Lemma getEnvVar_set (env : environment) (name fallback v : string) :
  env name = Some v -> v <> EmptyString ->
  getEnvVar env name fallback = (v, []).
Proof.
  unfold getEnvVar. intros -> Hv. destruct v; [now elim Hv | reflexivity].
Qed.

(** X13: [getEnvVar] returns the variable whenever it is set and not
    empty.  With a non-empty default it never returns the empty string
    and never warns; it warns only when it returns the empty string. *)
Theorem getEnvVar_warns_only_without_default
    (env : environment) (name fallback : string) :
  (forall v, env name = Some v -> v <> EmptyString ->
             getEnvVar env name fallback = (v, [])) /\
  (fallback <> EmptyString ->
   fst (getEnvVar env name fallback) <> EmptyString /\
   snd (getEnvVar env name fallback) = []) /\
  (snd (getEnvVar env name fallback) <> [] ->
   fst (getEnvVar env name fallback) = EmptyString).
Proof.
  split; [intros v; apply getEnvVar_set | ].
  unfold getEnvVar.
  destruct (env name) as [[ | c r] | ], fallback as [ | d f]; cbn [fst snd];
    split; try (intros H; try (now elim H); split); congruence.
Qed.

(** X14: [getBaseUrl()] and [getEnvVar('BASE_URL', 'https://example.com')]
    return the same URL in every environment, and so do [getApiBaseUrl()]
    and [getEnvVar] with its variable and default; only the dedicated
    helpers warn when they fall back. *)
Theorem dedicated_helpers_agree_with_getEnvVar (env : environment) :
  fst (getEnvVar env "BASE_URL" "https://example.com") = fst (getBaseUrl env) /\
  fst (getEnvVar env "API_BASE_URL" "https://api.example.com")
  = fst (getApiBaseUrl env) /\
  snd (getEnvVar env "BASE_URL" "https://example.com") = [] /\
  snd (getEnvVar env "API_BASE_URL" "https://api.example.com") = [].
Proof.
  rewrite !getEnvVar_value. repeat split.
  - unfold getEnvVar. now destruct (env "BASE_URL") as [[ | c r] | ].
  - unfold getEnvVar. now destruct (env "API_BASE_URL") as [[ | c r] | ].
Qed.

Lemma trim_empty : trim EmptyString = EmptyString.
Proof. reflexivity. Qed.

Lemma is_missing_false (env : environment) (name : string) :
  is_missing env name = false <->
  exists v, env name = Some v /\ trim v <> EmptyString.
Proof.
  unfold is_missing. split.
  - destruct (env name) as [[ | c r] | ]; cbn [truthy negb]; try discriminate.
    intros H. exists (String c r). split; [reflexivity | ].
    now apply String.eqb_neq.
  - intros (v & -> & Hv). destruct v as [ | c r]; [now elim Hv | ].
    cbn [truthy negb]. now apply String.eqb_neq.
Qed.

Lemma validate_returns (env : environment) (names : list string) :
  validateRequiredEnvVars env names = Returned tt <->
  filter (is_missing env) names = [].
Proof.
  unfold validateRequiredEnvVars.
  destruct (filter (is_missing env) names) as [ | m ms]; cbn;
    split; congruence.
Qed.

Lemma filter_nil_iff (f : string -> bool) (l : list string) :
  filter f l = [] <-> Forall (fun x => f x = false) l.
Proof.
  induction l as [ | x l IH]; cbn [filter].
  - split; [constructor | reflexivity].
  - destruct (f x) eqn:Hx.
    + split; [discriminate | ]. intros H. inversion H; congruence.
    + rewrite IH. split; [now constructor | now inversion 1].
Qed.

(** X15: [validateRequiredEnvVars] returns exactly when every required
    variable is set to something other than white space, and so a check of
    two lists at once passes when and only when both checks pass. *)
Theorem validate_passes_iff_all_present
    (env : environment) (names more : list string) :
  (validateRequiredEnvVars env names = Returned tt <->
   Forall (fun n => exists v, env n = Some v /\ trim v <> EmptyString) names) /\
  (validateRequiredEnvVars env (names ++ more) = Returned tt <->
   validateRequiredEnvVars env names = Returned tt /\
   validateRequiredEnvVars env more = Returned tt).
Proof.
  split.
  - rewrite validate_returns, filter_nil_iff, !Forall_forall.
    split; intros H n Hn; apply is_missing_false; exact (H n Hn).
  - rewrite !validate_returns, filter_app. split.
    + intros H. apply app_eq_nil in H. exact H.
    + intros [-> ->]. reflexivity.
Qed.

(** X16: after [validateRequiredEnvVars] has passed, [getEnvVar] returns
    the value of each of the checked variables, never its default, and
    does not warn; so does [getBaseUrl] when [BASE_URL] was checked. *)
Theorem validated_variables_are_read_back
    (env : environment) (names : list string) :
  validateRequiredEnvVars env names = Returned tt ->
  (forall n fallback, In n names ->
     exists v, env n = Some v /\ getEnvVar env n fallback = (v, [])) /\
  (In "BASE_URL" names ->
     exists v, env "BASE_URL" = Some v /\ getBaseUrl env = (v, [])).
Proof.
  intros Hok.
  assert (Hset : forall n, In n names ->
                   exists v, env n = Some v /\ v <> EmptyString).
  { intros n Hn. apply validate_returns in Hok.
    rewrite filter_nil_iff, Forall_forall in Hok.
    destruct (proj1 (is_missing_false env n) (Hok n Hn)) as (v & Hv & Ht).
    exists v. split; [exact Hv | ]. intros ->. now elim Ht. }
  split.
  - intros n fallback Hn. destruct (Hset n Hn) as (v & Hv & Hne).
    exists v. split; [exact Hv | exact (getEnvVar_set env n fallback v Hv Hne)].
  - intros Hn. destruct (Hset _ Hn) as (v & Hv & Hne).
    exists v. split; [exact Hv | ].
    exact (proj1 (proj2 (proj2 (fixed_helper env "BASE_URL"
             "https://example.com" ltac:(discriminate)))) v Hv Hne).
Qed.

(** X17: a value made of white space only counts as missing for
    [validateRequiredEnvVars] but as set for [getEnvVar], which returns it
    as it is and does not warn. *)
Theorem blank_value_is_missing_yet_returned
    (env : environment) (name fallback v : string) :
  env name = Some v -> v <> EmptyString -> trim v = EmptyString ->
  (exists message, validateRequiredEnvVars env [name] = ThrewError message) /\
  getEnvVar env name fallback = (v, []).
Proof.
  intros Hv Hne Hblank. split; [ | exact (getEnvVar_set env name fallback v Hv Hne)].
  unfold validateRequiredEnvVars. cbn [filter].
  assert (Hm : is_missing env name = true).
  { unfold is_missing. rewrite Hv. destruct v as [ | c r]; [now elim Hne | ].
    cbn [truthy negb]. now rewrite Hblank. }
  rewrite Hm. cbn. eauto.
Qed.

(** X18: whenever [isCI()] answers [true], playwright.config.ts is in its
    CI mode ([forbidOnly], two retries, one worker).  The converse fails:
    any other non-empty value of [CI], such as [false], puts the
    configuration in CI mode while [isCI()] answers [false]. *)
Theorem isCI_implies_ci_configuration (env : environment) :
  (isCI env = true ->
   forbidOnly (playwright_config env) = true /\
   retries (playwright_config env) = 2 /\
   workers (playwright_config env) = Some 1) /\
  (forall v, env "CI" = Some v -> v <> EmptyString ->
             v <> "true" -> v <> "1" ->
             isCI env = false /\
             forbidOnly (playwright_config env) = true /\
             retries (playwright_config env) = 2 /\
             workers (playwright_config env) = Some 1).
Proof.
  unfold isCI, playwright_config; cbn [forbidOnly retries workers]. split.
  - destruct (env "CI") as [v | ]; [ | discriminate].
    intros H. apply orb_true_iff in H.
    destruct H as [H | H]; apply String.eqb_eq in H; subst v; now repeat split.
  - intros v -> Hne Htrue Hone.
    apply String.eqb_neq in Htrue. apply String.eqb_neq in Hone.
    rewrite Htrue, Hone. destruct v; [now elim Hne | now repeat split].
Qed.

End EnvFacts.

(** * The API helpers *)

Section ApiFacts.

Context `{E : Engine}.

Import Api.

Lemma same_value_is_equal (a b : float) :
  Number.is_nan a = false ->
  PrimFloat.Leibniz.eqb a b = true -> PrimFloat.eqb a b = true.
Proof.
  intros Hnan H. apply Leibniz.eqb_spec in H. subst b.
  unfold Number.is_nan, PrimFloat.is_nan in Hnan.
  now apply negb_false_iff in Hnan.
Qed.

(** X19: for a response with a numeric status, [assertStatus] resolves
    exactly when the status is the expected one.  On a mismatch it
    rejects on the unmet expectation, whose message carries the body or,
    when the body cannot be read, a placeholder: a failure to read the
    body never replaces the report of the mismatch. *)
Theorem assertStatus_passes_iff_status_matches
    (response : APIResponse) (expectedStatus : float) :
  Number.is_nan (status response) = false ->
  (assertStatus response expectedStatus = Resolved tt <->
   PrimFloat.eqb (status response) expectedStatus = true) /\
  (PrimFloat.eqb (status response) expectedStatus = false ->
   assertStatus response expectedStatus
   = Failed (Unmet (status_message response expectedStatus
                      (match text response with
                       | Normal content => content
                       | Throw _ => unreadable_body
                       end)))).
Proof.
  intros Hnan. unfold assertStatus, strict_not_equal, expect_toBe, body_text.
  destruct (PrimFloat.eqb (status response) expectedStatus) eqn:Heq;
    cbn [negb].
  - split; [now split | discriminate].
  - destruct (PrimFloat.Leibniz.eqb (status response) expectedStatus) eqn:Hsame.
    + rewrite (same_value_is_equal _ _ Hnan Hsame) in Heq. discriminate Heq.
    + split; [split; discriminate | reflexivity].
Qed.

(** X20: [assertJsonResponse] resolves exactly when the content type
    includes [application/json] and the body is a JSON text, and then with
    the parsed body, [null] included: the final [toBeDefined] is met by
    every parsed body.  With another content type it rejects on the unmet
    expectation whatever the body is. *)
Theorem assertJsonResponse_resolves_iff_json
    (response : APIResponse) (body : value) :
  (assertJsonResponse response = Resolved body <->
   includes "application/json" (content_type response) = true /\
   exists content parsed,
     text response = Normal content /\ JSON_parse content = Some parsed /\
     body = Val parsed) /\
  (includes "application/json" (content_type response) = false ->
   exists message, assertJsonResponse response = Failed (Unmet message)).
Proof.
  unfold assertJsonResponse, response_json. fold (content_type response).
  destruct (includes "application/json" (content_type response)); cbn [negb].
  - split; [ | discriminate].
    destruct (text response) as [content | e].
    + destruct (JSON_parse content) as [parsed | ] eqn:Hparse;
        cbn [expect_toBeDefined].
      * split.
        -- intros H. injection H as <-. split; [reflexivity | ].
           now exists content, parsed.
        -- intros (_ & c & p & Hc & Hp & ->).
           injection Hc as <-. rewrite Hparse in Hp. now injection Hp as <-.
      * split; [discriminate | ].
        intros (_ & c & p & Hc & Hp & _).
        injection Hc as <-. rewrite Hparse in Hp. discriminate Hp.
    + split; [discriminate | ].
      intros (_ & c & p & Hc & _). discriminate Hc.
  - split; [ | intros _; eauto].
    split; [discriminate | intros [H _]; discriminate H].
Qed.

Lemma includes_prefix (part rest : string) : includes part (part ++ rest) = true.
Proof.
  assert (H : String.prefix part (part ++ rest) = true).
  { induction part as [ | c part IH]; cbn.
    - now destruct rest.
    - destruct (ascii_dec c c) as [_ | Hc]; [exact IH | now elim Hc]. }
  destruct (part ++ rest); cbn [includes]; now rewrite H.
Qed.

Lemma includes_later (part before s : string) :
  includes part s = true -> includes part (before ++ s) = true.
Proof.
  intros H. induction before as [ | c before IH]; cbn [append includes].
  - exact H.
  - rewrite IH. apply orb_true_r.
Qed.

(** X21: [logResponse] prints one entry and never fails on a body that
    cannot be read: the entry then shows the placeholder where it shows
    the body otherwise, after the label and the URL of the response. *)
Theorem logResponse_prints_body_or_placeholder
    (response : APIResponse) (label : string) (console : list string) :
  exists entry,
    logResponse response label console = (Resolved tt, (console ++ [entry])%list) /\
    includes label entry = true /\
    includes (url response) entry = true /\
    (forall content, text response = Normal content ->
                     includes content entry = true) /\
    (forall e, text response = Throw e ->
               includes unreadable_body entry = true).
Proof.
  exists (log_entry response label (body_text response)).
  split; [reflexivity | ]. unfold log_entry.
  split; [ | split; [ | split]].
  - do 2 apply includes_later. apply includes_prefix.
  - do 6 apply includes_later. apply includes_prefix.
  - intros content Hc. unfold body_text. rewrite Hc.
    do 17 apply includes_later. apply includes_prefix.
  - intros e He. unfold body_text. rewrite He.
    do 17 apply includes_later. apply includes_prefix.
Qed.

End ApiFacts.

Section RequestContextFacts.

Import Api.

Lemma lookup_assign_same (k v : string) (target : list (string * string)) :
  lookup k (assign k v target) = Some v.
Proof.
  induction target as [ | [k' v'] target IH]; cbn.
  - now rewrite String.eqb_refl.
  - destruct (String.eqb k' k) eqn:Hk; cbn.
    + now rewrite String.eqb_refl.
    + now rewrite Hk.
Qed.

Lemma lookup_assign_other (k v name : string)
    (target : list (string * string)) :
  k <> name -> lookup name (assign k v target) = lookup name target.
Proof.
  intros Hne. apply String.eqb_neq in Hne.
  induction target as [ | [k' v'] target IH]; cbn.
  - now rewrite Hne.
  - destruct (String.eqb k' k) eqn:Hk; cbn.
    + apply String.eqb_eq in Hk. subst k'. now rewrite Hne.
    + now rewrite IH.
Qed.

Lemma lookup_spread_absent (name : string)
    (source target : list (string * string)) :
  ~ In name (map fst source) ->
  lookup name (spread target source) = lookup name target.
Proof.
  unfold spread. revert target.
  induction source as [ | [k v] source IH]; intros target Hout; cbn.
  - reflexivity.
  - rewrite IH by (intros H; apply Hout; now right).
    apply lookup_assign_other. intros ->. apply Hout. now left.
Qed.

Lemma lookup_spread_present (name v : string)
    (source target : list (string * string)) :
  NoDup (map fst source) -> In (name, v) source ->
  lookup name (spread target source) = Some v.
Proof.
  unfold spread. revert target.
  induction source as [ | [k w] source IH]; intros target Hnodup Hin;
    [now elim Hin | ].
  cbn [map fst] in Hnodup. inversion Hnodup as [ | ? ? Hfresh Hrest]; subst.
  cbn [fold_left fst snd]. destruct Hin as [Heq | Hin].
  - injection Heq as -> ->.
    fold (spread (assign name v target) source).
    rewrite (lookup_spread_absent name source _ Hfresh).
    apply lookup_assign_same.
  - exact (IH _ Hrest Hin).
Qed.

(** X22: in the headers that [createRequestContext] hands to
    [newContext], every header of the caller is present with the caller's
    value, also when it has the name of a default, and every other name
    reads as in the defaults: [Accept] and [Content-Type] are
    [application/json] unless the caller gives them, in this very
    spelling. *)
Theorem caller_headers_override_defaults
    (baseURL : string) (extraHeaders : list (string * string)) :
  NoDup (map fst extraHeaders) ->
  option_baseURL (createRequestContext baseURL extraHeaders) = baseURL /\
  (forall name v, In (name, v) extraHeaders ->
     lookup name (extraHTTPHeaders (createRequestContext baseURL extraHeaders))
     = Some v) /\
  (forall name, ~ In name (map fst extraHeaders) ->
     lookup name (extraHTTPHeaders (createRequestContext baseURL extraHeaders))
     = lookup name default_headers).
Proof.
  intros Hnodup. cbn [createRequestContext option_baseURL extraHTTPHeaders].
  split; [reflexivity | ]. split.
  - intros name v Hin. exact (lookup_spread_present name v _ _ Hnodup Hin).
  - intros name Hout. exact (lookup_spread_absent name _ _ Hout).
Qed.

(** X23: the [apiContext] fixture asks for the very context that
    [createRequestContext] builds without extra headers.  Its base URL is
    the one of [getApiBaseUrl()] when [API_BASE_URL] is set and not empty,
    and a different one when it is not: the fixture then falls back to
    httpbin.org, the helper to api.example.com. *)
Theorem fixture_agrees_with_helpers (env : Env.environment) :
  apiContext_options env
  = createRequestContext (option_baseURL (apiContext_options env)) [] /\
  (Env.truthy (env "API_BASE_URL") = true ->
   option_baseURL (apiContext_options env) = fst (Env.getApiBaseUrl env)) /\
  (Env.truthy (env "API_BASE_URL") = false ->
   option_baseURL (apiContext_options env) = "https://httpbin.org" /\
   fst (Env.getApiBaseUrl env) = "https://api.example.com").
Proof.
  split; [reflexivity | ].
  unfold apiContext_options, Env.getApiBaseUrl; cbn [option_baseURL fst].
  destruct (env "API_BASE_URL") as [[ | c r] | ]; cbn;
    split; try discriminate; intros _; try reflexivity; now split.
Qed.

End RequestContextFacts.

(** ** The helpers at examples *)

Lemma buildUrl_keeps_path_iff_no_params_witness :
  Url.buildUrl "/api/users" [("page", "1"); ("limit", "10"); ("search", "john")]
  = "/api/users" ++ "?" ++
    Url.serialize [("page", "1"); ("limit", "10"); ("search", "john")].
Proof.
  apply (proj2 (buildUrl_keeps_path_iff_no_params "/api/users"
                  [("page", "1"); ("limit", "10"); ("search", "john")])).
  discriminate.
Defined.


Lemma base_urls_fall_back_with_a_warning_witness :
  Env.getBaseUrl (Env.of_list [("BASE_URL", "https://staging.example.org")])
  = ("https://staging.example.org", []).
Proof.
  apply (proj1 (proj2 (proj2 (proj1
           (base_urls_fall_back_with_a_warning
              (Env.of_list [("BASE_URL", "https://staging.example.org")])))))).
  - reflexivity.
  - discriminate.
Defined.

Lemma getEnvVar_warns_only_without_default_witness :
  fst (Env.getEnvVar (Env.of_list []) "TEST_TIMEOUT" "30000") <> EmptyString /\
  snd (Env.getEnvVar (Env.of_list []) "TEST_TIMEOUT" "30000") = [].
Proof.
  apply (proj1 (proj2 (getEnvVar_warns_only_without_default
                         (Env.of_list []) "TEST_TIMEOUT" "30000"))).
  discriminate.
Defined.

Lemma validate_passes_iff_all_present_witness :
  Env.validateRequiredEnvVars
    (Env.of_list [("BASE_URL", "https://staging.example.org"); ("API_KEY", "k")])
    ["BASE_URL"; "API_KEY"] = Env.Returned tt.
Proof.
  apply (proj2 (proj1 (validate_passes_iff_all_present
                         (Env.of_list [("BASE_URL", "https://staging.example.org");
                                       ("API_KEY", "k")])
                         ["BASE_URL"; "API_KEY"] []))).
  constructor; [ | constructor; [ | constructor]].
  - exists "https://staging.example.org". split; [reflexivity | ].
    vm_compute. discriminate.
  - exists "k". split; [reflexivity | ]. vm_compute. discriminate.
Defined.

Lemma validated_variables_are_read_back_witness :
  exists v,
    Env.of_list [("BASE_URL", "https://staging.example.org")] "BASE_URL" = Some v /\
    Env.getBaseUrl (Env.of_list [("BASE_URL", "https://staging.example.org")])
    = (v, []).
Proof.
  apply (proj2 (validated_variables_are_read_back
                  (Env.of_list [("BASE_URL", "https://staging.example.org")])
                  ["BASE_URL"] ltac:(vm_compute; reflexivity))).
  left. reflexivity.
Defined.

Lemma blank_value_is_missing_yet_returned_witness :
  (exists message,
     Env.validateRequiredEnvVars (Env.of_list [("API_KEY", "  ")]) ["API_KEY"]
     = Env.ThrewError message) /\
  Env.getEnvVar (Env.of_list [("API_KEY", "  ")]) "API_KEY" "none" = ("  ", []).
Proof.
  apply (blank_value_is_missing_yet_returned
           (Env.of_list [("API_KEY", "  ")]) "API_KEY" "none" "  ").
  - reflexivity.
  - discriminate.
  - vm_compute. reflexivity.
Defined.

Lemma isCI_implies_ci_configuration_witness :
  Env.isCI (Env.of_list [("CI", "false")]) = false /\
  Env.forbidOnly (Env.playwright_config (Env.of_list [("CI", "false")])) = true /\
  Env.retries (Env.playwright_config (Env.of_list [("CI", "false")])) = 2 /\
  Env.workers (Env.playwright_config (Env.of_list [("CI", "false")])) = Some 1.
Proof.
  apply (proj2 (isCI_implies_ci_configuration (Env.of_list [("CI", "false")]))
           "false").
  - reflexivity.
  - discriminate.
  - discriminate.
  - discriminate.
Defined.

Lemma assertStatus_passes_iff_status_matches_witness :
  @Api.assertStatus Sample.engine Api.disposed 200%float
  = Api.Failed
      (Api.Unmet
         (@Api.status_message Sample.engine Api.disposed 200%float
            Api.unreadable_body)).
Proof.
  apply (proj2 (@assertStatus_passes_iff_status_matches Sample.engine
                  Api.disposed 200%float ltac:(vm_compute; reflexivity))).
  vm_compute. reflexivity.
Defined.

Lemma assertJsonResponse_resolves_iff_json_witness :
  @Api.assertJsonResponse Sample.engine Api.healthy = Api.Resolved (Val JNull).
Proof.
  apply (proj1 (@assertJsonResponse_resolves_iff_json Sample.engine
                  Api.healthy (Val JNull))).
  split; [vm_compute; reflexivity | ].
  exists "null", JNull.
  split; [reflexivity | split; [vm_compute; reflexivity | reflexivity]].
Defined.

Lemma caller_headers_override_defaults_witness :
  Api.lookup "Accept"
    (Api.extraHTTPHeaders
       (Api.createRequestContext "https://api.example.com"
          [("Authorization", "Bearer token123"); ("Accept", "text/plain")]))
  = Some "text/plain".
Proof.
  assert (Hnodup : NoDup (map fst [("Authorization", "Bearer token123");
                                   ("Accept", "text/plain")])).
  { repeat constructor; cbn; intuition discriminate. }
  apply (proj1 (proj2 (caller_headers_override_defaults
                         "https://api.example.com"
                         [("Authorization", "Bearer token123");
                          ("Accept", "text/plain")] Hnodup))).
  right. left. reflexivity.
Defined.

Lemma fixture_agrees_with_helpers_witness :
  Api.option_baseURL
    (Api.apiContext_options (Env.of_list [("API_BASE_URL", "https://api.test")]))
  = fst (Env.getApiBaseUrl (Env.of_list [("API_BASE_URL", "https://api.test")])).
Proof.
  apply (proj1 (proj2 (fixture_agrees_with_helpers
                         (Env.of_list [("API_BASE_URL", "https://api.test")])))).
  reflexivity.
Defined.

Lemma logResponse_prints_body_or_placeholder_witness :
  exists entry,
    @Api.logResponse Sample.engine Api.disposed "Health Check" []
    = (Api.Resolved tt, ([] ++ [entry])%list) /\
    Api.includes Api.unreadable_body entry = true.
Proof.
  destruct (@logResponse_prints_body_or_placeholder Sample.engine
              Api.disposed "Health Check" [])
    as (entry & Hlog & _ & _ & _ & Hplaceholder).
  exists entry. split; [exact Hlog | ].
  apply (Hplaceholder (BrowserError "Response has been disposed")).
  reflexivity.
Defined.

(** * The page objects *)

Section PageFacts.

Import Pages.


(** X25: [getErrorMessage] reads the text of the alert only when the
    alert is visible.  When it is not, or when its visibility cannot be
    determined, the method resolves with [null] after that one call; it
    rejects only when reading the text rejects. *)
Theorem getErrorMessage_reads_only_visible_alert
    (b : browser) (calls : list call) :
  (on_isVisible b calls errorMessage <> Normal true ->
   getErrorMessage b calls
   = (Normal None, (calls ++ [IsVisible errorMessage])%list)) /\
  (on_isVisible b calls errorMessage = Normal true ->
   getErrorMessage b calls
   = (on_textContent b (calls ++ [IsVisible errorMessage])%list errorMessage,
      (calls ++ [IsVisible errorMessage; TextContent errorMessage])%list)).
Proof.
  unfold getErrorMessage, await, catch_with, locator_isVisible,
    locator_textContent, pure.
  destruct (on_isVisible b calls errorMessage) as [[ | ] | e]; cbn [fst snd].
  - split; [intros H; now elim H | intros _].
    now rewrite <- app_assoc.
  - split; [reflexivity | discriminate].
  - split; [reflexivity | discriminate].
Qed.

End PageFacts.


Lemma getErrorMessage_reads_only_visible_alert_witness :
  Pages.getErrorMessage Pages.stuck_password []
  = (Normal None, [Pages.IsVisible Pages.errorMessage]).
Proof.
  apply (proj1 (getErrorMessage_reads_only_visible_alert
                  Pages.stuck_password [])).
  discriminate.
Defined.
